(** * Kenya-Law frontend: the API base resolver and the answer normalizer

    A shallow embedding of the two pieces of decision logic of the
    frontend:

    - [utils/api.ts] (its text follows the deployment script in
      [deploy-frontend.sh], whose line numbers are the ones quoted
      below): [APP_ROUTES], [detectBasePath], [getApiBaseUrl];
    - [frontend/src/pages/AskAI.tsx]: [normalizeResponseText] and the
      part of [handleSubmit] that splits the backend answer into the main
      content and the system guidance.

    JavaScript strings are sequences of UTF-16 code units; they are
    modelled as lists of code units ([N]).  The string methods and the
    regular expressions the two files use are written out as list
    functions in [JsString]; values that may be [undefined] or [null] and
    the exceptions raised by method calls on them are in [JsValue]. *)

From Stdlib Require Import String Ascii.
From Stdlib Require Import List NArith ZArith Arith Bool Lia.
Import ListNotations.

(* ================================================================== *)
(** * Strings as lists of UTF-16 code units                            *)
(* ================================================================== *)

Module JsString.

Definition code_unit := N.
Definition jsstring := list code_unit.

(** A string literal of the source, as its code units (Basic Latin and
    Latin-1 literals only, which is all the two files contain). *)
Definition js (s : string) : jsstring :=
  List.map N_of_ascii (list_ascii_of_string s).

Definition cu_eqb (a b : code_unit) : bool := N.eqb a b.

Fixpoint str_eqb (a b : jsstring) : bool :=
  match a, b with
  | [], [] => true
  | x :: a', y :: b' => cu_eqb x y && str_eqb a' b'
  | _, _ => false
  end.

(** [ToBoolean] of a string, as in [filter(Boolean)] and [part && ...]:
    only the empty string is falsy. *)
Definition nonempty (s : jsstring) : bool :=
  match s with [] => false | _ :: _ => true end.

(** [s.length] *)
Definition len (s : jsstring) : nat := List.length s.

(** ** White space

    [String.prototype.trim] and the regular expression class [\s] use the
    same set: WhiteSpace and LineTerminator of ECMAScript. *)
Definition is_ws (c : code_unit) : bool :=
  ((9 <=? c) && (c <=? 13)        (* TAB LF VT FF CR *)
   || (c =? 32)                   (* SPACE *)
   || (c =? 160)                  (* NO-BREAK SPACE *)
   || (c =? 5760)                 (* U+1680 *)
   || ((8192 <=? c) && (c <=? 8202))  (* U+2000 .. U+200A *)
   || (c =? 8232) || (c =? 8233)  (* U+2028 U+2029 *)
   || (c =? 8239)                 (* U+202F *)
   || (c =? 8287)                 (* U+205F *)
   || (c =? 12288)                (* U+3000 *)
   || (c =? 65279))%N.            (* U+FEFF *)

(** Remove the longest prefix of code units satisfying [p]. *)
Fixpoint drop_while (p : code_unit -> bool) (s : jsstring) : jsstring :=
  match s with
  | [] => []
  | c :: s' => if p c then drop_while p s' else s
  end.

(** Remove the longest suffix of code units satisfying [p]. *)
Fixpoint drop_while_end (p : code_unit -> bool) (s : jsstring) : jsstring :=
  match s with
  | [] => []
  | c :: s' =>
      match drop_while_end p s' with
      | [] => if p c then [] else [c]
      | t => c :: t
      end
  end.

(** [s.trim()] *)
Definition trim (s : jsstring) : jsstring :=
  drop_while_end is_ws (drop_while is_ws s).

(** [s.startsWith(pre)] *)
Fixpoint startsWith (pre s : jsstring) : bool :=
  match pre, s with
  | [], _ => true
  | p :: pre', c :: s' => cu_eqb p c && startsWith pre' s'
  | _ :: _, [] => false
  end.

(** [s.endsWith(suf)] *)
Definition endsWith (suf s : jsstring) : bool :=
  str_eqb (skipn (len s - len suf) s) suf.

(** [s.slice(0, -1)] *)
Definition slice_0_minus1 (s : jsstring) : jsstring := removelast s.

(** ** Case

    [Canonicalize] of a regular expression with the [i] flag and without
    the [u] flag: the code unit is upper-cased, unless that would turn a
    code unit outside Basic Latin into one inside.  All the patterns of
    the source are Basic Latin, so only the image inside Basic Latin
    matters: there, exactly [a]..[z] move, to [A]..[Z]. *)
Definition canonicalize (c : code_unit) : code_unit :=
  if ((97 <=? c) && (c <=? 122))%N then (c - 32)%N else c.

(** A literal pattern anchored at the start ([/^pat/i]) matches. *)
Fixpoint startsWith_ci (pat s : jsstring) : bool :=
  match pat, s with
  | [], _ => true
  | p :: pat', c :: s' =>
      cu_eqb (canonicalize p) (canonicalize c) && startsWith_ci pat' s'
  | _ :: _, [] => false
  end.

(** [String.prototype.toLowerCase], code unit by code unit.  It is exact
    on Basic Latin and on the two code units outside it whose lower case
    starts in Basic Latin (U+212A KELVIN SIGN, and U+0130, which becomes
    [i] followed by U+0307).  Every other code unit lowers to something
    outside Basic Latin and is kept as it is: the source compares the
    result only with the Basic Latin names of [APP_ROUTES]. *)
Definition lower_cu (c : code_unit) : jsstring :=
  if ((65 <=? c) && (c <=? 90))%N then [(c + 32)%N]
  else if (c =? 8490)%N then [107%N]
  else if (c =? 304)%N then [105%N; 775%N]
  else [c].

Definition toLowerCase (s : jsstring) : jsstring := flat_map lower_cu s.

(** ** Splitting and joining *)

(** [s.split(sep)] for a non-empty separator: the pieces between the
    leftmost, non-overlapping occurrences of [sep].  [skip] counts the
    code units of a separator that was matched and is still being
    stepped over; [cur] is the current piece, reversed. *)
Fixpoint split_go (sep : jsstring) (skip : nat) (cur s : jsstring)
  : list jsstring :=
  match s with
  | [] => [rev cur]
  | c :: s' =>
      match skip with
      | S k => split_go sep k cur s'
      | O =>
          if startsWith sep s
          then rev cur :: split_go sep (len sep - 1) [] s'
          else split_go sep 0 (c :: cur) s'
      end
  end.

Definition split (sep s : jsstring) : list jsstring := split_go sep 0 [] s.

(** [parts.join(sep)] *)
Fixpoint join (sep : jsstring) (parts : list jsstring) : jsstring :=
  match parts with
  | [] => []
  | [p] => p
  | p :: rest => p ++ sep ++ join sep rest
  end.

(** ** Replacing *)

(** [s.replace(/\\L/g, r)] where [L] is a letter: every occurrence of
    the two code units backslash, [L] becomes the single code unit [r],
    scanning from the left. *)
Fixpoint replace_escape (letter r : code_unit) (s : jsstring) : jsstring :=
  match s with
  | c1 :: ((c2 :: rest) as tl) =>
      if cu_eqb c1 92%N && cu_eqb c2 letter
      then r :: replace_escape letter r rest
      else c1 :: replace_escape letter r tl
  | _ => s
  end.

(** [s.replace(/X$/, '')] for a single code unit [X]: without the [m]
    flag [$] is the end of the input, so only a last [X] is removed. *)
Definition strip_last (x : code_unit) (s : jsstring) : jsstring :=
  if endsWith [x] s then removelast s else s.

End JsString.

(* ================================================================== *)
(** * Values that may be absent, and abrupt completion                 *)
(* ================================================================== *)

Module JsValue.
Import JsString.

(** The values the two files handle where a string is expected: an
    environment variable, an attribute, an array element or a field of
    the response may be [undefined] or [null] instead. *)
Inductive value : Type :=
| undefined
| null
| str (s : jsstring).

(** [ToBoolean]: [undefined], [null] and the empty string are falsy. *)
Definition truthy (v : value) : bool :=
  match v with
  | str (_ :: _) => true
  | _ => false
  end.

(** [a || b] *)
Definition or_else (a b : value) : value := if truthy a then a else b.

(** [a === b] *)
Definition strict_eq (a b : value) : bool :=
  match a, b with
  | undefined, undefined => true
  | null, null => true
  | str s, str t => str_eqb s t
  | _, _ => false
  end.

(** [ToString], as applied by a template literal. *)
Definition to_string (v : value) : jsstring :=
  match v with
  | undefined => js "undefined"
  | null => js "null"
  | str s => s
  end.

Inductive exn : Type := TypeError.

(** The outcome of evaluating an expression or a block: a value, or an
    exception on its way to the nearest [catch]. *)
Inductive completion (A : Type) : Type :=
| Normal (a : A)
| Throw (e : exn).

Arguments Normal {A} a.
Arguments Throw {A} e.

Definition bind {A B} (c : completion A) (k : A -> completion B)
  : completion B :=
  match c with
  | Normal a => k a
  | Throw e => Throw e
  end.

(** [v.m(...)] for a string method [m]: a property access on [undefined]
    or [null] throws a [TypeError]. *)
Definition method {A} (v : value) (m : jsstring -> A) : completion A :=
  match v with
  | str s => Normal (m s)
  | _ => Throw TypeError
  end.

(** [parts[i]]: [undefined] outside the array. *)
Definition index (parts : list jsstring) (i : nat) : value :=
  match nth_error parts i with
  | Some s => str s
  | None => undefined
  end.

End JsValue.

Declare Scope completion_scope.
Delimit Scope completion_scope with completion.
Notation "x <- c ;; k" := (JsValue.bind c (fun x => k))
  (at level 61, c at next level, right associativity) : completion_scope.

(* ================================================================== *)
(** * pages/AskAI.tsx                                                  *)
(* ================================================================== *)

Module AskAI.
Import JsString JsValue.
Local Open Scope completion_scope.

Definition QUOTE : code_unit := 39%N.
Definition LETTER_n : code_unit := 110%N.
Definition LETTER_t : code_unit := 116%N.
Definition NEWLINE : code_unit := 10%N.
Definition TAB : code_unit := 9%N.

(** [/^content=/i.test(s)] *)
Definition test_content (s : jsstring) : bool :=
  startsWith_ci (js "content=") s.

(** [s.replace(/^content='?/i, '')]: the marker and, greedily, one
    single quote right after it. *)
Definition replace_content (s : jsstring) : jsstring :=
  if startsWith_ci (js "content=") s
  then match skipn (len (js "content=")) s with
       | c :: rest => if cu_eqb c QUOTE then rest else c :: rest
       | [] => []
       end
  else s.

(** [normalizeResponseText], lines 37-45. *)
Definition normalizeResponseText (text : value) : completion jsstring :=
  normalized <- method (or_else text (str [])) trim ;;
  let normalized :=
    if test_content normalized
    then strip_last QUOTE (replace_content normalized)
    else normalized in
  let normalized :=
    replace_escape LETTER_t TAB (replace_escape LETTER_n NEWLINE normalized) in
  Normal (trim normalized).

(** [s.replace(/^System guidance applied:\s*/i, '')] *)
Definition replace_guidance_label (s : jsstring) : jsstring :=
  let label := js "System guidance applied:" in
  if startsWith_ci label s
  then drop_while is_ws (skipn (len label) s)
  else s.

(** What [handleSubmit] puts in the assistant message. *)
Record AnswerParts : Type := {
  content : jsstring;
  systemGuidance : value
}.

(** [rawAnswer.split('---').map(seg => seg.trim()).filter(Boolean)] *)
Definition guidanceSegments (rawAnswer : jsstring) : list jsstring :=
  filter nonempty (List.map trim (split (js "---") rawAnswer)).

(** [handleSubmit], lines 159-170: from [response.data.answer] to the
    [content] and [systemGuidance] of the assistant message. *)
Definition handleSubmit_answer (answer : value) : completion AnswerParts :=
  let rawAnswer := or_else answer (str []) in
  mainContent <- normalizeResponseText rawAnswer ;;
  segs <- method rawAnswer guidanceSegments ;;
  if (1 <? length segs)%nat
  then
    mainContent <- normalizeResponseText (index segs 0) ;;
    let guidanceCandidate := join (js " --- ") (tl segs) in
    guidance <- normalizeResponseText
                  (str (replace_guidance_label guidanceCandidate)) ;;
    Normal {| content := mainContent; systemGuidance := str guidance |}
  else
    Normal {| content := mainContent; systemGuidance := undefined |}.

End AskAI.

(* ================================================================== *)
(** * utils/api.ts (deploy-frontend.sh, lines 118-227)                 *)
(* ================================================================== *)

Module Api.
Import JsString JsValue.
Local Open Scope completion_scope.

Definition SLASH : code_unit := 47%N.

(** The [<base>] element, if the document has one; [href] is its
    attribute, if it has one. *)
Record Element : Type := { href : option jsstring }.

(** [baseTag.getAttribute('href')]: [null] when the attribute is absent. *)
Definition getAttribute_href (e : Element) : value :=
  match href e with
  | Some s => str s
  | None => null
  end.

(** What the module reads from its surroundings: [process.env],
    [window.location.pathname] and [document.querySelector('base')]. *)
Record Env : Type := {
  REACT_APP_API_BASE_URL : value;
  PUBLIC_URL : value;
  pathname : jsstring;
  querySelector_base : option Element
}.

(** Line 127. *)
Definition APP_ROUTES : list jsstring :=
  [js ""; js "login"; js "ask-ai"; js "uploads"; js "reports";
   js "dashboard"].

(** [array.includes(x)] *)
Definition includes (array : list jsstring) (x : jsstring) : bool :=
  existsb (str_eqb x) array.

(** [array.findIndex(p)]: [-1] when no element satisfies [p]. *)
Fixpoint findIndex (p : jsstring -> bool) (array : list jsstring) : Z :=
  match array with
  | [] => (-1)%Z
  | x :: rest =>
      if p x then 0%Z
      else let i := findIndex p rest in
           if (i <? 0)%Z then (-1)%Z else (i + 1)%Z
  end.

(** [array.slice(0, n)] for [n >= 0]. *)
Definition slice_0 (n : Z) (array : list jsstring) : list jsstring :=
  firstn (Z.to_nat n) array.

(** [pathname.replace(/^\/+|\/+$/g, '')]: the run of slashes at the
    start and the run of slashes at the end are removed. *)
Definition strip_slashes (s : jsstring) : jsstring :=
  drop_while_end (cu_eqb SLASH) (drop_while (cu_eqb SLASH) s).

(** [part => part && part !== 'index.html'] *)
Definition keep_part (part : jsstring) : bool :=
  nonempty part && negb (str_eqb part (js "index.html")).

(** [cleanPath.split('/').filter(...)], lines 138-139. *)
Definition pathParts_of (pathname : jsstring) : list jsstring :=
  let cleanPath := strip_slashes pathname in
  filter keep_part (split (js "/") cleanPath).

(** [part => APP_ROUTES.includes(part.toLowerCase())] *)
Definition is_route (part : jsstring) : bool :=
  includes APP_ROUTES (toLowerCase part).

(** Lines 157-163: the base path in front of a later route name. *)
Definition before_route (pathParts : list jsstring) : option jsstring :=
  if (1 <? length pathParts)%nat
  then
    let routeIndex := findIndex is_route pathParts in
    if (0 <? routeIndex)%Z
    then Some (js "/" ++ join (js "/") (slice_0 routeIndex pathParts))
    else None
  else None.

(** Lines 168-175: the base path of the [<base>] element. *)
Definition from_base_tag (env : Env) : completion (option jsstring) :=
  match querySelector_base env with
  | Some baseTag =>
      if truthy (getAttribute_href baseTag)
      then
        let baseHref := or_else (getAttribute_href baseTag) (str []) in
        if negb (strict_eq baseHref (str (js "/")))
        then
          absolute <- method baseHref (startsWith (js "/")) ;;
          if (absolute : bool)
          then
            basePath <- method baseHref (strip_last SLASH) ;;
            if truthy (str basePath)
            then Normal (Some basePath)
            else Normal None
          else Normal None
        else Normal None
      else Normal None
  | None => Normal None
  end.

(** The [try] block of [detectBasePath], lines 136-175: [Some r] when a
    [return r] is reached, [None] when the block runs to its end. *)
Definition detectBasePath_try (env : Env) : completion (option jsstring) :=
  let pathParts := pathParts_of (pathname env) in
  if (length pathParts =? 0)%nat
  then Normal (Some [])
  else
    firstPart <- method (index pathParts 0) toLowerCase ;;
    if negb (includes APP_ROUTES firstPart)
    then Normal (Some (js "/" ++ to_string (index pathParts 0)))
    else
      match before_route pathParts with
      | Some r => Normal (Some r)
      | None => from_base_tag env
      end.

(** [detectBasePath], lines 134-182: an exception is caught and logged,
    and the function then returns [''] like when nothing was found. *)
Definition detectBasePath (env : Env) : jsstring :=
  match detectBasePath_try env with
  | Normal (Some r) => r
  | Normal None => []
  | Throw _ => []
  end.

(** [getApiBaseUrl], lines 187-211. *)
Definition getApiBaseUrl (env : Env) : completion jsstring :=
  if truthy (REACT_APP_API_BASE_URL env)
  then
    apiUrl <- method (REACT_APP_API_BASE_URL env) trim ;;
    let cleanUrl :=
      if endsWith (js "/") apiUrl then slice_0_minus1 apiUrl else apiUrl in
    Normal (if endsWith (js "/api") cleanUrl
            then cleanUrl
            else cleanUrl ++ js "/api")
  else
    let publicUrl := or_else (PUBLIC_URL env) (str []) in
    if truthy publicUrl && negb (strict_eq publicUrl (str (js "/")))
    then
      slash <- method publicUrl (endsWith (js "/")) ;;
      cleanBase <- (if (slash : bool)
                    then method publicUrl slice_0_minus1
                    else Normal (to_string publicUrl)) ;;
      Normal (cleanBase ++ js "/api")
    else
      let basePath := detectBasePath env in
      Normal (basePath ++ js "/api").

End Api.

(* ================================================================== *)
(** * Predicates and reference functions used by the statements        *)
(* ================================================================== *)

Module Props.
Import JsString JsValue.

(** The string contains the two code units backslash, [letter] next to
    each other. *)
Fixpoint has_escape (letter : code_unit) (s : jsstring) : bool :=
  match s with
  | c1 :: ((c2 :: _) as tl) =>
      (cu_eqb c1 92%N && cu_eqb c2 letter) || has_escape letter tl
  | _ => false
  end.

(** Both escapes that [normalizeResponseText] rewrites, one after the
    other. *)
Definition unescape (s : jsstring) : jsstring :=
  replace_escape AskAI.LETTER_t AskAI.TAB
    (replace_escape AskAI.LETTER_n AskAI.NEWLINE s).

(** The steps of [normalizeResponseText] that follow the first trim,
    on the trimmed text [z]. *)
Definition after_trim (z : jsstring) : jsstring :=
  trim (unescape (if AskAI.test_content z
                  then strip_last AskAI.QUOTE (AskAI.replace_content z)
                  else z)).

(** A code unit of Basic Latin that is neither a control nor a space. *)
Definition printable (c : code_unit) : Prop := (33 <= c <= 126)%N.

(** The wrapper clean-up read without a first trim: the marker and one
    optional quote are stripped from the input as it was received, then
    one trailing quote, then the escapes are replaced and the result is
    trimmed. *)
Definition unwrap_untrimmed (s : jsstring) : jsstring :=
  trim (unescape (strip_last AskAI.QUOTE (AskAI.replace_content s))).

(** The same steps after the first trim, as [normalizeResponseText] has
    them. *)
Definition unwrap_trimmed (s : jsstring) : jsstring :=
  trim (unescape (strip_last AskAI.QUOTE (AskAI.replace_content (trim s)))).

(** The deployment subpath a document declares: the [href] of its
    [<base>] element when that is absolute and not the root, without one
    trailing slash; nothing otherwise. *)
Definition declared_base (env : Api.Env) : jsstring :=
  match Api.querySelector_base env with
  | Some {| Api.href := Some h |} =>
      if startsWith (js "/") h && negb (str_eqb h (js "/"))
      then strip_last Api.SLASH h
      else []
  | _ => []
  end.

(** Tier 1 of [getApiBaseUrl] is not taken. *)
Definition no_override (env : Api.Env) : Prop :=
  truthy (Api.REACT_APP_API_BASE_URL env) = false.

(** Tier 2 of [getApiBaseUrl] is not taken: [PUBLIC_URL] is unset, empty
    or the root. *)
Definition no_public_url (env : Api.Env) : Prop :=
  truthy (Api.PUBLIC_URL env) = false \/
  Api.PUBLIC_URL env = str (js "/").

(** The segments of a page path that remain once the empty ones and
    [index.html] are dropped. *)
Definition retained_segments (pathname : jsstring) : list jsstring :=
  filter Api.keep_part (split (js "/") pathname).

End Props.

(* ================================================================== *)
(** * Further predicates on strings                                    *)
(* ================================================================== *)

Module Shape.
Import JsString JsValue.

(** No white space at either end: what [trim] would leave alone. *)
Definition trimmedb (s : jsstring) : bool :=
  match s with
  | [] => true
  | c :: _ => negb (is_ws c) && negb (is_ws (last s c))
  end.

(** The first code unit, if there is one, is not white space. *)
Definition head_ok (s : jsstring) : Prop :=
  match s with
  | [] => True
  | c :: _ => is_ws c = false
  end.

(** [s.includes(sub)] *)
Fixpoint contains (sub s : jsstring) : bool :=
  match s with
  | [] => startsWith sub []
  | _ :: s' => startsWith sub s || contains sub s'
  end.

(** What [normalizeResponseText] leaves behind: nothing to trim and no
    escape to replace. *)
Definition normal_form (s : jsstring) : Prop :=
  trimmedb s = true /\
  Props.has_escape AskAI.LETTER_n s = false /\
  Props.has_escape AskAI.LETTER_t s = false.

(** A path segment as [detectBasePath] keeps it. *)
Definition segment (part : jsstring) : Prop :=
  part <> [] /\ part <> js "index.html" /\ ~ In Api.SLASH part.

End Shape.

(* ================================================================== *)
(** * pages/AskAI.tsx: loading the analysis presets                    *)
(* ================================================================== *)

Module Prompts.
Import JsString JsValue.
Local Open Scope completion_scope.

Section Payload.

(** The numbers of a payload; the code only ever tests whether one is
    truthy (neither zero nor NaN). *)
Variable number : Type.
Variable number_truthy : number -> bool.

(** A value as typed [any]: what [JSON.parse] produces, and [undefined]
    for a property that is not there.  An object lists its properties;
    the first binding of a name counts. *)
#[local] Unset Elimination Schemes.
Inductive any : Type :=
| AUndefined
| ANull
| ABool (b : bool)
| ANum (n : number)
| AStr (s : jsstring)
| AArr (items : list any)
| AObj (fields : list (jsstring * any)).
#[local] Set Elimination Schemes.

(** [ToBoolean] *)
Definition any_truthy (v : any) : bool :=
  match v with
  | AUndefined | ANull => false
  | ABool b => b
  | ANum n => number_truthy n
  | AStr s => nonempty s
  | AArr _ | AObj _ => true
  end.

Fixpoint lookup (key : jsstring) (fields : list (jsstring * any)) : any :=
  match fields with
  | [] => AUndefined
  | (k, v) :: rest => if str_eqb k key then v else lookup key rest
  end.

(** [v.key] for a property name that no built-in prototype defines
    ([prompts], [is_active], [id], [title], [description]): a
    [TypeError] on [undefined] and [null], [undefined] on a value that
    is not an object or lacks the property. *)
Definition get (v : any) (key : jsstring) : completion any :=
  match v with
  | AUndefined | ANull => Throw TypeError
  | AObj fields => Normal (lookup key fields)
  | _ => Normal AUndefined
  end.

(** [v?.key] *)
Definition get_opt (v : any) (key : jsstring) : any :=
  match v with
  | AObj fields => lookup key fields
  | _ => AUndefined
  end.

(** [v !== false] *)
Definition not_false (v : any) : bool :=
  match v with
  | ABool false => false
  | _ => true
  end.

(** [items.filter((p: any) => p.is_active !== false)] *)
Fixpoint filter_active (items : list any) : completion (list any) :=
  match items with
  | [] => Normal []
  | p :: rest =>
      active <- get p (js "is_active") ;;
      kept <- filter_active rest ;;
      Normal (if not_false active then p :: kept else kept)
  end.

(** [v.filter(...)]: only an array has the method. *)
Definition call_filter (v : any) : completion (list any) :=
  match v with
  | AArr items => filter_active items
  | _ => Throw TypeError
  end.

(** An entry of [serverPrompts]. *)
Record Prompt : Type := {
  id : any;
  title : any;
  description : any
}.

(** [(p: any) => ({ id: p.id, title: p.title, description: p.description })] *)
Definition project (p : any) : completion Prompt :=
  i <- get p (js "id") ;;
  t <- get p (js "title") ;;
  d <- get p (js "description") ;;
  Normal {| id := i; title := t; description := d |}.

Fixpoint map_project (kept : list any) : completion (list Prompt) :=
  match kept with
  | [] => Normal []
  | p :: rest =>
      q <- project p ;;
      qs <- map_project rest ;;
      Normal (q :: qs)
  end.

(** [list[0]] *)
Definition first_of (kept : list any) : any :=
  match kept with
  | [] => AUndefined
  | p :: _ => p
  end.

(** The two pieces of state the effect sets. *)
Record PromptState : Type := {
  serverPrompts : list Prompt;
  presetId : any
}.

(** How [axios.get] settles: rejected, or resolved with [res.data]. *)
Inductive response : Type :=
| Rejected
| Resolved (data : any).

Definition preset (i t d : string) : Prompt :=
  {| id := AStr (js i); title := AStr (js t); description := AStr (js d) |}.

(** Lines 120-127. *)
Definition fallback : list Prompt :=
  [ preset "case-summary" "Case Summary"
      "Summarize the key facts, issues, holdings, and reasoning of a case.";
    preset "legal-principle" "Legal Principle Extraction"
      "Extract the core legal principles and ratio decidendi from a judgment.";
    preset "case-precedents" "Case Precedents"
      "Find and analyze relevant precedents and how they apply.";
    preset "statutory-interpretation" "Statutory Interpretation"
      "Interpret statutes and legal provisions in context.";
    preset "legal-opinion" "Legal Opinion (Non-binding)"
      "Provide a preliminary legal analysis on a matter.";
    preset "comparative-law" "Comparative Case Law"
      "Compare legal approaches across different jurisdictions." ].

(** The [try] block, lines 115-118, once the request has resolved. *)
Definition loadPrompts_try (st : PromptState) (data : any)
  : completion PromptState :=
  let prompts := get_opt data (js "prompts") in
  list <- call_filter (if any_truthy prompts then prompts else AArr []) ;;
  offered <- map_project list ;;
  let st := {| serverPrompts := offered; presetId := presetId st |} in
  if (0 <? length list)%nat
  then
    i <- get (first_of list) (js "id") ;;
    Normal {| serverPrompts := serverPrompts st; presetId := i |}
  else Normal st.

(** The [catch] block, lines 119-129. *)
Definition loadPrompts_catch : PromptState :=
  {| serverPrompts := fallback; presetId := AStr (js "case-summary") |}.

(** The effect of lines 112-132 on the state, for each way the request
    can settle. *)
Definition loadPrompts (st : PromptState) (r : response) : PromptState :=
  match r with
  | Rejected => loadPrompts_catch
  | Resolved data =>
      match loadPrompts_try st data with
      | Normal st' => st'
      | Throw _ => loadPrompts_catch
      end
  end.

(** The payload offers nothing: [prompts] is missing or falsy, or it is
    an array of objects that are all marked [is_active: false]. *)
Definition all_inactive (items : list any) : Prop :=
  Forall (fun p => exists fields,
              p = AObj fields /\ lookup (js "is_active") fields = ABool false)
         items.

(** The payload cannot be read: [prompts] is truthy and not an array, or
    one of its entries is [null]. *)
Definition malformed (data : any) : Prop :=
  match get_opt data (js "prompts") with
  | AArr items => In ANull items
  | v => any_truthy v = true
  end.

End Payload.

(** Integers as the numbers of a payload. *)
Definition Z_truthy (z : Z) : bool := negb (z =? 0)%Z.

Arguments AUndefined {number}.
Arguments ANull {number}.
Arguments ABool {number} b.
Arguments ANum {number} n.
Arguments AStr {number} s.
Arguments AArr {number} items.
Arguments AObj {number} fields.
Arguments any_truthy {number} number_truthy v.
Arguments lookup {number} key fields.
Arguments get {number} v key.
Arguments get_opt {number} v key.
Arguments not_false {number} v.
Arguments filter_active {number} items.
Arguments call_filter {number} v.
Arguments id {number} p.
Arguments title {number} p.
Arguments description {number} p.
Arguments project {number} p.
Arguments map_project {number} kept.
Arguments first_of {number} kept.
Arguments serverPrompts {number} p.
Arguments presetId {number} p.
Arguments Rejected {number}.
Arguments Resolved {number} data.
Arguments preset {number} i t d.
Arguments fallback {number}.
Arguments loadPrompts_try {number} number_truthy st data.
Arguments loadPrompts_catch {number}.
Arguments loadPrompts {number} number_truthy st r.
Arguments all_inactive {number} items.
Arguments malformed {number} number_truthy data.

End Prompts.

(* ================================================================== *)
(** * pages/Uploads.tsx: the list of documents                         *)
(* ================================================================== *)

Module Uploads.
Import JsString JsValue.

(** A [Date], as its time value. *)
Definition Date := Z.

Inductive Status : Type := uploading | indexed | error.

(** The interface [UploadedDocument]. *)
Record UploadedDocument : Type := {
  id : jsstring;
  filename : jsstring;
  size : N;
  type : jsstring;
  status : Status;
  uploadedAt : Date;
  indexedAt : option Date;
  caseName : option jsstring;
  court : option jsstring;
  year : option jsstring;
  legalArea : option jsstring;
  citation : option jsstring
}.

(** What [uploadFile] reads of the [File]. *)
Record File : Type := {
  file_name : jsstring;
  file_size : N;
  file_type : jsstring
}.

(** The state [metadata]. *)
Record Metadata : Type := {
  meta_caseName : jsstring;
  meta_court : jsstring;
  meta_year : jsstring;
  meta_legalArea : jsstring;
  meta_citation : jsstring
}.

(** The object literal [document] of [uploadFile]; [new_id] stands for
    [Date.now().toString() + Math.random()] and [now] for [new Date()]. *)
Definition new_document (new_id : jsstring) (now : Date) (file : File)
  (meta : Metadata) : UploadedDocument :=
  {| id := new_id;
     filename := file_name file;
     size := file_size file;
     type := file_type file;
     status := uploading;
     uploadedAt := now;
     indexedAt := None;
     caseName := Some (meta_caseName meta);
     court := Some (meta_court meta);
     year := Some (meta_year meta);
     legalArea := Some (meta_legalArea meta);
     citation := Some (meta_citation meta) |}.

(** [{ ...doc, status: s, indexedAt: t }] *)
Definition with_status (doc : UploadedDocument) (s : Status)
  (t : option Date) : UploadedDocument :=
  {| id := id doc;
     filename := filename doc;
     size := size doc;
     type := type doc;
     status := s;
     uploadedAt := uploadedAt doc;
     indexedAt := t;
     caseName := caseName doc;
     court := court doc;
     year := year doc;
     legalArea := legalArea doc;
     citation := citation doc |}.

(** [prev => [document, ...prev]] *)
Definition uploadFile_begin (document : UploadedDocument)
  (prev : list UploadedDocument) : list UploadedDocument :=
  document :: prev.

(** How [axios.post] settles: rejected, or resolved with a
    [response.data] that is an object; [is_indexed] is whether its
    [indexed] is truthy, and [now] the [new Date()] taken then. *)
Inductive settled : Type :=
| Rejected
| Resolved (is_indexed : bool) (now : Date).

(** The updater passed to [setDocuments] when the request settles: the
    one of the [try] block, or the one of the [catch] block. *)
Definition uploadFile_settle (document_id : jsstring) (r : settled)
  (prev : list UploadedDocument) : list UploadedDocument :=
  List.map
    (fun doc =>
       if str_eqb (id doc) document_id
       then match r with
            | Resolved is_indexed now =>
                with_status doc
                  (if is_indexed then indexed else error)
                  (if is_indexed then Some now else None)
            | Rejected => with_status doc error (indexedAt doc)
            end
       else doc)
    prev.

(** [prev => prev.filter(doc => doc.id !== id)] *)
Definition deleteDocument (document_id : jsstring)
  (prev : list UploadedDocument) : list UploadedDocument :=
  filter (fun doc => negb (str_eqb (id doc) document_id)) prev.

End Uploads.

(* ================================================================== *)
(** * Facts about the string primitives                                *)
(* ================================================================== *)

Module StringFacts.
Import JsString JsValue Props.

Lemma cu_eqb_eq (a b : code_unit) : cu_eqb a b = true <-> a = b.
Proof. apply N.eqb_eq. Qed.

Lemma cu_eqb_refl (a : code_unit) : cu_eqb a a = true.
Proof. apply N.eqb_refl. Qed.

Lemma str_eqb_eq (a b : jsstring) : str_eqb a b = true <-> a = b.
Proof.
  revert b; induction a as [|x a IH]; intros [|y b]; simpl;
    try (split; [discriminate|discriminate]); try tauto.
  rewrite andb_true_iff, cu_eqb_eq, IH.
  split; [intros [-> ->]; reflexivity | intros [= -> ->]; tauto].
Qed.

Lemma str_eqb_refl (a : jsstring) : str_eqb a a = true.
Proof. apply str_eqb_eq; reflexivity. Qed.

Lemma str_eqb_neq (a b : jsstring) : str_eqb a b = false <-> a <> b.
Proof.
  destruct (str_eqb a b) eqn:E.
  - apply str_eqb_eq in E. split; [discriminate | tauto].
  - split; [|reflexivity]. intros _ H. apply str_eqb_eq in H. congruence.
Qed.

(** Induction following the recursion of [replace_escape] and
    [has_escape], which look at two code units at a time. *)
Lemma pair_ind (P : jsstring -> Prop) :
  P [] ->
  (forall c, P [c]) ->
  (forall c1 c2 rest, P rest -> P (c2 :: rest) -> P (c1 :: c2 :: rest)) ->
  forall s, P s.
Proof.
  intros H0 H1 H2 s.
  assert (both : P s /\ forall c, P (c :: s)).
  { induction s as [|c s [IHs IHc]].
    - split; [exact H0 | exact H1].
    - split; [apply IHc | intros c0; apply H2; [exact IHs | apply IHc]]. }
  exact (proj1 both).
Qed.

Section DropWhile.
Variable p : code_unit -> bool.

Lemma drop_while_end_keep c s :
  p c = false -> drop_while_end p (c :: s) = c :: drop_while_end p s.
Proof. intros H; simpl. rewrite H. destruct (drop_while_end p s); reflexivity. Qed.

Lemma drop_while_end_idem s :
  drop_while_end p (drop_while_end p s) = drop_while_end p s.
Proof.
  induction s as [|c s IH]; [reflexivity|]. simpl.
  destruct (drop_while_end p s) as [|h t] eqn:E.
  - destruct (p c) eqn:Ec; simpl; [reflexivity | now rewrite Ec].
  - change (drop_while_end p (c :: h :: t)) with
      (match drop_while_end p (h :: t) with
       | [] => if p c then [] else [c]
       | u => c :: u
       end).
    rewrite IH. reflexivity.
Qed.

Lemma drop_while_head s :
  match drop_while p s with
  | [] => True
  | c :: _ => p c = false
  end.
Proof.
  induction s as [|c s IH]; simpl; [exact I|].
  destruct (p c) eqn:E; [exact IH | exact E].
Qed.

(** What [drop_while_end] keeps starts like the input. *)
Lemma drop_while_end_head s h t :
  drop_while_end p s = h :: t -> exists rest, s = h :: rest.
Proof.
  destruct s as [|c s]; simpl; [discriminate|].
  destruct (drop_while_end p s); [destruct (p c)|];
    intros [= <- <-]; eauto.
Qed.

Lemma length_drop_while s : length (drop_while p s) <= length s.
Proof.
  induction s as [|c s IH]; simpl; [lia|]. destruct (p c); simpl; lia.
Qed.

Lemma length_drop_while_end s : length (drop_while_end p s) <= length s.
Proof.
  induction s as [|c s IH]; simpl; [lia|].
  destruct (drop_while_end p s); [destruct (p c)|]; simpl in *; lia.
Qed.
End DropWhile.

(** ** [trim] *)

Lemma trim_idem s : trim (trim s) = trim s.
Proof.
  unfold trim. pose proof (drop_while_head is_ws s) as Hh.
  destruct (drop_while is_ws s) as [|c t]; [reflexivity|].
  rewrite drop_while_end_keep by exact Hh. simpl drop_while. rewrite Hh.
  rewrite drop_while_end_keep by exact Hh.
  rewrite drop_while_end_idem. reflexivity.
Qed.

Lemma length_trim s : length (trim s) <= length s.
Proof.
  unfold trim.
  pose proof (length_drop_while_end is_ws (drop_while is_ws s)).
  pose proof (length_drop_while is_ws s). lia.
Qed.

Lemma trim_nil : trim [] = [].
Proof. reflexivity. Qed.

(** ** [endsWith] *)

Lemma endsWith_app s suf : endsWith suf (s ++ suf) = true.
Proof.
  unfold endsWith, len. rewrite length_app.
  replace (length s + length suf - length suf) with (length s + 0) by lia.
  rewrite skipn_app, Nat.add_0_r, skipn_all, Nat.sub_diag. simpl.
  apply str_eqb_refl.
Qed.

Lemma length_strip_last x s : length (strip_last x s) <= length s.
Proof.
  unfold strip_last. destruct (endsWith [x] s); [|lia].
  destruct s as [|c s]; [simpl; lia|].
  rewrite removelast_firstn_len, length_firstn. lia.
Qed.

(** ** The primitives against their usual descriptions *)

Lemma startsWith_app pre s :
  startsWith pre s = true <-> exists rest, s = pre ++ rest.
Proof.
  revert s. induction pre as [|p pre IH]; intros s; simpl.
  - split; [intros _; exists s; reflexivity | reflexivity].
  - destruct s as [|c s].
    + split; [discriminate | intros [rest H]; discriminate].
    + rewrite andb_true_iff, cu_eqb_eq, IH. split.
      * intros [-> [rest ->]]. exists rest. reflexivity.
      * intros [rest [= -> ->]]. split; [reflexivity | exists rest; reflexivity].
Qed.

Lemma endsWith_iff suf s :
  endsWith suf s = true <-> exists front, s = front ++ suf.
Proof.
  split.
  - unfold endsWith. intros H. apply str_eqb_eq in H.
    set (n := len s - len suf) in H.
    exists (firstn n s). rewrite <- H. symmetry. apply firstn_skipn.
  - intros [front ->]. apply endsWith_app.
Qed.

(** [strip_last] removes a last [x], and nothing else. *)
Lemma strip_last_app x front : strip_last x (front ++ [x]) = front.
Proof.
  unfold strip_last. rewrite endsWith_app. apply removelast_last.
Qed.

Lemma drop_while_snoc p l c :
  drop_while p (l ++ [c]) =
  match drop_while p l with
  | [] => if p c then [] else [c]
  | t => t ++ [c]
  end.
Proof.
  induction l as [|x l IH]; simpl; [reflexivity|].
  destruct (p x); [exact IH | reflexivity].
Qed.

(** [drop_while_end] is [drop_while] read from the other end. *)
Lemma drop_while_end_rev p s :
  drop_while_end p s = rev (drop_while p (rev s)).
Proof.
  induction s as [|c s IH]; [reflexivity|]. simpl.
  rewrite drop_while_snoc, IH.
  destruct (drop_while p (rev s)) as [|h t]; simpl.
  - destruct (p c); reflexivity.
  - rewrite rev_app_distr. simpl.
    destruct (rev t ++ [h]) eqn:E; [|reflexivity].
    destruct (rev t); discriminate.
Qed.

Lemma split_go_skip sep skip cur s :
  split_go sep skip cur s = split_go sep 0 cur (skipn skip s).
Proof.
  revert skip. induction s as [|c s IH]; intros [|k]; try reflexivity.
  simpl skipn. rewrite <- IH. reflexivity.
Qed.

Lemma split_go_cons sep skip cur s :
  exists piece pieces, split_go sep skip cur s = piece :: pieces.
Proof.
  revert skip cur. induction s as [|c s IH]; intros skip cur; simpl.
  - eauto.
  - destruct skip as [|k]; [|apply IH].
    destruct (startsWith sep (c :: s)); [eauto | apply IH].
Qed.

Lemma join_cons sep piece pieces :
  pieces <> [] ->
  join sep (piece :: pieces) = piece ++ sep ++ join sep pieces.
Proof. destruct pieces; [contradiction | reflexivity]. Qed.

(** The pieces of [split], joined by the separator, are the string. *)
Lemma join_split_go sep n : forall cur s,
  sep <> [] -> length s <= n ->
  join sep (split_go sep 0 cur s) = rev cur ++ s.
Proof.
  induction n as [|n IH]; intros cur s Hsep Hn.
  - destruct s; [simpl; now rewrite app_nil_r | simpl in Hn; lia].
  - destruct s as [|c s]; [simpl; now rewrite app_nil_r|].
    change (split_go sep 0 cur (c :: s)) with
      (if startsWith sep (c :: s)
       then rev cur :: split_go sep (len sep - 1) [] s
       else split_go sep 0 (c :: cur) s).
    simpl in Hn.
    destruct (startsWith sep (c :: s)) eqn:E.
    + apply startsWith_app in E. destruct E as [rest E].
      destruct sep as [|p sep]; [contradiction|].
      injection E as -> ->.
      rewrite split_go_skip.
      replace (skipn (len (p :: sep) - 1) (sep ++ rest)) with rest
        by (unfold len; simpl; rewrite Nat.sub_0_r, skipn_app, skipn_all,
            Nat.sub_diag; reflexivity).
      destruct (split_go_cons (p :: sep) 0 [] rest) as (piece & pieces & Ep).
      rewrite join_cons by (rewrite Ep; discriminate).
      rewrite IH; [reflexivity | discriminate |].
      rewrite length_app in Hn. lia.
    + rewrite IH; [|exact Hsep | lia]. simpl. rewrite <- app_assoc.
      reflexivity.
Qed.

Lemma join_split sep s : sep <> [] -> join sep (split sep s) = s.
Proof. intros H. apply (join_split_go sep (length s) [] s H). lia. Qed.

End StringFacts.

(* ================================================================== *)
(** * Facts about escape replacement                                   *)
(* ================================================================== *)

Module EscapeFacts.
Import JsString JsValue Props StringFacts.

Lemma replace_escape_cons2 l r c1 c2 rest :
  replace_escape l r (c1 :: c2 :: rest) =
  if cu_eqb c1 92%N && cu_eqb c2 l
  then r :: replace_escape l r rest
  else c1 :: replace_escape l r (c2 :: rest).
Proof. reflexivity. Qed.

Lemma has_escape_cons2 l c1 c2 rest :
  has_escape l (c1 :: c2 :: rest) =
  (cu_eqb c1 92%N && cu_eqb c2 l) || has_escape l (c2 :: rest).
Proof. reflexivity. Qed.

Lemma has_escape_tail l c s :
  has_escape l (c :: s) = false -> has_escape l s = false.
Proof.
  destruct s as [|c2 rest]; [reflexivity|].
  rewrite has_escape_cons2. intros H. apply orb_false_iff in H. tauto.
Qed.

(** A string that starts with a code unit other than the replacement
    still starts with it after the replacement. *)
Lemma hd_replace_escape l r s x :
  r <> x -> hd_error (replace_escape l r s) = Some x -> hd_error s = Some x.
Proof.
  intros Hr. destruct s as [|c1 [|c2 rest]]; try (simpl; tauto).
  rewrite replace_escape_cons2.
  destruct (cu_eqb c1 92%N && cu_eqb c2 l); simpl; [|tauto].
  intros [= E]. contradiction.
Qed.

Local Ltac head_clash IH2 :=
  match goal with
  | |- has_escape ?l' (?c1 :: replace_escape ?l ?r (?c2 :: ?rest)) = false =>
      let E := fresh "E" in
      let Hh := fresh "Hh" in
      destruct (replace_escape l r (c2 :: rest)) as [|h t] eqn:E;
      [reflexivity|];
      rewrite has_escape_cons2, IH2, orb_false_r;
      destruct (cu_eqb c1 92%N && cu_eqb h l') eqn:Hh; [|reflexivity];
      apply andb_true_iff in Hh; destruct Hh as [Hh1 Hh2];
      apply cu_eqb_eq in Hh1; apply cu_eqb_eq in Hh2; subst c1 h
  end.

(** After [replace(/\\L/g, r)] no escape [\L] is left. *)
Lemma replace_escape_clears l r s :
  r <> 92%N -> r <> l -> has_escape l (replace_escape l r s) = false.
Proof.
  intros Hb Hl. induction s as [| c | c1 c2 rest IH1 IH2] using pair_ind;
    try reflexivity.
  rewrite replace_escape_cons2.
  destruct (cu_eqb c1 92%N && cu_eqb c2 l) eqn:M.
  - destruct (replace_escape l r rest) as [|h t] eqn:E; [reflexivity|].
    rewrite has_escape_cons2, IH1.
    replace (cu_eqb r 92%N) with false; [reflexivity|].
    symmetry. apply N.eqb_neq. exact Hb.
  - head_clash IH2.
    assert (Hc : hd_error (c2 :: rest) = Some l).
    { apply (hd_replace_escape l r); [exact Hl | rewrite E; reflexivity]. }
    injection Hc as ->. rewrite !cu_eqb_refl in M. discriminate.
Qed.

(** Replacing one escape does not create another one. *)
Lemma replace_escape_preserves l r l' s :
  r <> 92%N -> r <> l' ->
  has_escape l' s = false -> has_escape l' (replace_escape l r s) = false.
Proof.
  intros Hb Hl. induction s as [| c | c1 c2 rest IH1 IH2] using pair_ind;
    try (intros; reflexivity).
  intros H. pose proof (has_escape_tail _ _ _ H) as H2.
  pose proof (has_escape_tail _ _ _ H2) as H1.
  specialize (IH1 H1). specialize (IH2 H2).
  rewrite replace_escape_cons2.
  destruct (cu_eqb c1 92%N && cu_eqb c2 l) eqn:M.
  - destruct (replace_escape l r rest) as [|h t] eqn:E; [reflexivity|].
    rewrite has_escape_cons2, IH1.
    replace (cu_eqb r 92%N) with false; [reflexivity|].
    symmetry. apply N.eqb_neq. exact Hb.
  - head_clash IH2.
    assert (Hc : hd_error (c2 :: rest) = Some l').
    { apply (hd_replace_escape l r); [exact Hl | rewrite E; reflexivity]. }
    injection Hc as ->.
    rewrite has_escape_cons2, !cu_eqb_refl in H. discriminate.
Qed.

(** Without an escape there is nothing to replace. *)
Lemma replace_escape_fixed l r s :
  has_escape l s = false -> replace_escape l r s = s.
Proof.
  induction s as [| c | c1 c2 rest IH1 IH2] using pair_ind;
    try reflexivity.
  rewrite has_escape_cons2, replace_escape_cons2. intros H.
  apply orb_false_iff in H. destruct H as [M H2].
  rewrite M, (IH2 H2). reflexivity.
Qed.

Lemma length_replace_escape l r s :
  length (replace_escape l r s) <= length s.
Proof.
  induction s as [| c | c1 c2 rest IH1 IH2] using pair_ind;
    try (simpl; lia).
  rewrite replace_escape_cons2.
  destruct (cu_eqb c1 92%N && cu_eqb c2 l); simpl in *; lia.
Qed.

(** Substrings taken by [drop_while], [drop_while_end] and [trim] do not
    gain escapes. *)
Lemma has_escape_drop_while p l s :
  has_escape l s = false -> has_escape l (drop_while p s) = false.
Proof.
  induction s as [|c s IH]; intros H; [reflexivity|]. simpl drop_while.
  destruct (p c); [apply IH; exact (has_escape_tail _ _ _ H) | exact H].
Qed.

Lemma has_escape_drop_while_end p l s :
  has_escape l s = false -> has_escape l (drop_while_end p s) = false.
Proof.
  induction s as [|c s IH]; intros H; [reflexivity|]. simpl drop_while_end.
  pose proof (has_escape_tail _ _ _ H) as Ht. specialize (IH Ht).
  destruct (drop_while_end p s) as [|h t] eqn:E.
  - destruct (p c); reflexivity.
  - destruct (drop_while_end_head _ _ _ _ E) as [rest ->].
    rewrite has_escape_cons2 in H |- *. rewrite IH.
    apply orb_false_iff in H. destruct H as [-> _]. reflexivity.
Qed.

Lemma has_escape_trim l s :
  has_escape l s = false -> has_escape l (trim s) = false.
Proof.
  intros H. unfold trim.
  apply has_escape_drop_while_end, has_escape_drop_while, H.
Qed.

(** [unescape] leaves neither escape behind, and is the identity on a
    string that has none. *)
Lemma unescape_clears s :
  has_escape AskAI.LETTER_n (unescape s) = false /\
  has_escape AskAI.LETTER_t (unescape s) = false.
Proof.
  unfold unescape. split.
  - apply replace_escape_preserves; [discriminate | discriminate |].
    apply replace_escape_clears; discriminate.
  - apply replace_escape_clears; discriminate.
Qed.

Lemma unescape_fixed s :
  has_escape AskAI.LETTER_n s = false ->
  has_escape AskAI.LETTER_t s = false ->
  unescape s = s.
Proof.
  intros Hn Ht. unfold unescape.
  rewrite (replace_escape_fixed _ _ _ Hn). apply replace_escape_fixed, Ht.
Qed.

Lemma length_unescape s : length (unescape s) <= length s.
Proof.
  unfold unescape.
  pose proof (length_replace_escape AskAI.LETTER_n AskAI.NEWLINE s).
  pose proof (length_replace_escape AskAI.LETTER_t AskAI.TAB
                (replace_escape AskAI.LETTER_n AskAI.NEWLINE s)).
  lia.
Qed.

End EscapeFacts.

(* ================================================================== *)
(** * Properties of the answer normalizer (pages/AskAI.tsx)            *)
(* ================================================================== *)

Module AskAIProps.
Import JsString JsValue Props StringFacts EscapeFacts AskAI.
Local Open Scope completion_scope.

Lemma or_else_str s : or_else (str s) (str []) = str s.
Proof. destruct s; reflexivity. Qed.

(** On a string, [normalizeResponseText] trims and then runs
    [after_trim]; it completes normally. *)
Lemma normalizeResponseText_str s :
  normalizeResponseText (str s) = Normal (after_trim (trim s)).
Proof. unfold normalizeResponseText. rewrite or_else_str. reflexivity. Qed.

Lemma is_ws_range c : is_ws c = true -> (c <= 32 \/ 160 <= c)%N.
Proof.
  unfold is_ws. intros H.
  repeat (apply orb_true_iff in H; destruct H as [H|H]);
    try (apply andb_true_iff in H; destruct H as [H H']);
    rewrite ?N.eqb_eq, ?N.leb_le in *; lia.
Qed.

Lemma printable_not_ws c : printable c -> is_ws c = false.
Proof.
  unfold printable. intros H. destruct (is_ws c) eqn:E; [|reflexivity].
  apply is_ws_range in E. lia.
Qed.

(** A code unit that matches a printable pattern code unit under the
    [i] flag is printable. *)
Lemma canonicalize_printable p c :
  printable p -> cu_eqb (canonicalize p) (canonicalize c) = true ->
  printable c.
Proof.
  unfold printable, canonicalize, cu_eqb. intros Hp H.
  apply N.eqb_eq in H.
  destruct ((97 <=? p) && (p <=? 122))%N eqn:Ep;
  destruct ((97 <=? c) && (c <=? 122))%N eqn:Ec;
    try (apply andb_true_iff in Ep; destruct Ep as [Ep1 Ep2];
         apply N.leb_le in Ep1; apply N.leb_le in Ep2);
    try (apply andb_true_iff in Ec; destruct Ec as [Ec1 Ec2];
         apply N.leb_le in Ec1; apply N.leb_le in Ec2);
    lia.
Qed.

Lemma startsWith_ci_drop_while_end pat s :
  Forall printable pat -> startsWith_ci pat s = true ->
  startsWith_ci pat (drop_while_end is_ws s) = true.
Proof.
  intros Hp. revert s. induction Hp as [|p pat Hp _ IH]; intros s H.
  - reflexivity.
  - destruct s as [|c s]; [discriminate|]. simpl in H.
    apply andb_true_iff in H. destruct H as [Hc Hs].
    rewrite drop_while_end_keep
      by (apply printable_not_ws, (canonicalize_printable p); assumption).
    simpl. rewrite Hc. apply IH, Hs.
Qed.

(** A match of a printable pattern at the start survives [trim]. *)
Lemma startsWith_ci_trim pat s :
  Forall printable pat -> startsWith_ci pat s = true ->
  startsWith_ci pat (trim s) = true.
Proof.
  intros Hp H. unfold trim. destruct Hp as [|p pat Hp Hps]; [reflexivity|].
  destruct s as [|c s]; [discriminate|].
  assert (Hc : is_ws c = false).
  { simpl in H. apply andb_true_iff in H.
    apply printable_not_ws, (canonicalize_printable p); tauto. }
  simpl drop_while. rewrite Hc.
  apply startsWith_ci_drop_while_end; [constructor; assumption | exact H].
Qed.

Lemma marker_printable : Forall printable (js "content=").
Proof. repeat constructor; unfold printable; simpl; lia. Qed.

Lemma test_content_trim s :
  test_content s = true -> test_content (trim s) = true.
Proof. apply startsWith_ci_trim, marker_printable. Qed.

Lemma startsWith_ci_length pat s :
  startsWith_ci pat s = true -> length pat <= length s.
Proof.
  revert s; induction pat as [|p pat IH]; intros s H; simpl; [lia|].
  destruct s as [|c s]; [discriminate|]. simpl in H.
  apply andb_true_iff in H. destruct H as [_ H]. apply IH in H. simpl. lia.
Qed.

(** Stripping the marker shortens the text by at least the marker. *)
Lemma length_replace_content s :
  test_content s = true ->
  length (replace_content s) + 8 <= length s.
Proof.
  intros H. unfold replace_content. unfold test_content in H. rewrite H.
  pose proof (startsWith_ci_length _ _ H) as Hl.
  pose proof (length_skipn (len (js "content=")) s) as Hs.
  change (len (js "content=")) with 8 in *.
  change (length (js "content=")) with 8 in Hl.
  destruct (skipn 8 s) as [|c rest]; [simpl in *; lia|].
  destruct (cu_eqb c QUOTE); simpl in *; lia.
Qed.

(** What [normalizeResponseText] returns is trimmed and holds no escape. *)
Lemma after_trim_normal z :
  trim (after_trim z) = after_trim z /\
  has_escape LETTER_n (after_trim z) = false /\
  has_escape LETTER_t (after_trim z) = false.
Proof.
  unfold after_trim. split; [apply trim_idem|].
  split; apply has_escape_trim, unescape_clears.
Qed.

Lemma length_after_trim_marker z :
  test_content z = true -> length (after_trim z) + 8 <= length z.
Proof.
  intros H. unfold after_trim. rewrite H.
  pose proof (length_replace_content z H).
  pose proof (length_strip_last QUOTE (replace_content z)).
  pose proof (length_unescape (strip_last QUOTE (replace_content z))).
  pose proof (length_trim (unescape (strip_last QUOTE (replace_content z)))).
  lia.
Qed.

(** ** Totality *)

Lemma normalizeResponseText_normal text :
  exists r, normalizeResponseText text = Normal r.
Proof.
  destruct text as [| |s].
  - exists []. reflexivity.
  - exists []. reflexivity.
  - exists (after_trim (trim s)). apply normalizeResponseText_str.
Qed.

(** C8: [normalizeResponseText] completes normally on every input: a
    string (the empty one included), [null] or [undefined]; [null] and
    [undefined] are treated as the empty string, and the result is then
    the empty string. *)
Theorem normalizeResponseText_never_throws :
  (forall text : value, exists r, normalizeResponseText text = Normal r) /\
  normalizeResponseText undefined = normalizeResponseText (str []) /\
  normalizeResponseText null = normalizeResponseText (str []) /\
  normalizeResponseText undefined = Normal [] /\
  normalizeResponseText null = Normal [] /\
  normalizeResponseText (str []) = Normal [].
Proof.
  split; [exact normalizeResponseText_normal|].
  repeat split; reflexivity.
Qed.

(** ** Idempotence *)

(** A text that is trimmed, does not start with the marker and holds no
    escape is returned as it is. *)
Lemma normalizeResponseText_fixed y :
  trim y = y -> test_content y = false ->
  has_escape LETTER_n y = false -> has_escape LETTER_t y = false ->
  normalizeResponseText (str y) = Normal y.
Proof.
  intros Ht Hm Hn Hb. rewrite normalizeResponseText_str, Ht.
  unfold after_trim. rewrite Hm, (unescape_fixed _ Hn Hb), Ht. reflexivity.
Qed.

(** A result that starts with the marker loses it in a second pass. *)
Lemma normalizeResponseText_shrinks x y :
  normalizeResponseText (str x) = Normal y -> test_content y = true ->
  normalizeResponseText (str y) <> Normal y.
Proof.
  rewrite normalizeResponseText_str. intros [= <-] Hm.
  rewrite normalizeResponseText_str.
  destruct (after_trim_normal (trim x)) as [-> _].
  intros [= E]. pose proof (length_after_trim_marker _ Hm) as Hl.
  rewrite E in Hl. lia.
Qed.

(** C1 (as stated): a second pass changes the result of the first one on
    [content=content=x]. *)
Lemma normalizeResponseText_not_idempotent :
  normalizeResponseText (str (js "content=content=x"))
    = Normal (js "content=x") /\
  normalizeResponseText (str (js "content=x")) = Normal (js "x") /\
  normalizeResponseText (str (js "content=x"))
    <> normalizeResponseText (str (js "content=content=x")).
Proof. split; [reflexivity | split; [reflexivity | discriminate]]. Qed.

(** C1 (amended): a second pass of [normalizeResponseText] returns the
    result [y] of the first pass unchanged exactly when [y] does not
    start, case-insensitively, with the marker [content=]. *)
Theorem normalizeResponseText_idempotent_iff x y :
  normalizeResponseText (str x) = Normal y ->
  (normalizeResponseText (str y) = Normal y <-> test_content y = false).
Proof.
  intros H. split.
  - intros H2. destruct (test_content y) eqn:Hm; [|reflexivity].
    exfalso. exact (normalizeResponseText_shrinks x y H Hm H2).
  - intros Hm. rewrite normalizeResponseText_str in H. injection H as <-.
    destruct (after_trim_normal (trim x)) as (Ht & Hn & Hb).
    apply normalizeResponseText_fixed; assumption.
Qed.

Lemma normalizeResponseText_idempotent_iff_witness :
  normalizeResponseText (str (js "  content='Hello\nWorld' "))
    = Normal (js "Hello" ++ [NEWLINE] ++ js "World") /\
  (normalizeResponseText (str (js "Hello" ++ [NEWLINE] ++ js "World"))
     = Normal (js "Hello" ++ [NEWLINE] ++ js "World")
   <-> test_content (js "Hello" ++ [NEWLINE] ++ js "World") = false).
Proof.
  split; [reflexivity|].
  apply (normalizeResponseText_idempotent_iff
           (js "  content='Hello\nWorld' ")).
  reflexivity.
Defined.

(** ** The wrapper *)

(** C6 (as stated): on [content='a' ], which starts with the marker and
    ends with a space, the function returns [a], while stripping the
    wrapper from the input as received leaves the quote in place. *)
Lemma unwrap_untrimmed_differs :
  test_content (js "content='a' ") = true /\
  normalizeResponseText (str (js "content='a' ")) = Normal (js "a") /\
  unwrap_untrimmed (js "content='a' ") = js "a'" /\
  normalizeResponseText (str (js "content='a' "))
    <> Normal (unwrap_untrimmed (js "content='a' ")).
Proof.
  split; [reflexivity|]. split; [reflexivity|].
  split; [reflexivity | discriminate].
Qed.

(** C6 (amended): on an input that starts, case-insensitively, with the
    marker [content=], [normalizeResponseText] trims the input, strips
    the marker and one quote right after it, strips one trailing quote,
    replaces every escape backslash-n and backslash-t by a newline and a
    tab, and trims the result. *)
Theorem normalizeResponseText_unwraps x :
  test_content x = true ->
  normalizeResponseText (str x) = Normal (unwrap_trimmed x).
Proof.
  intros H. rewrite normalizeResponseText_str.
  unfold after_trim, unwrap_trimmed.
  rewrite (test_content_trim _ H). reflexivity.
Qed.

(** When nothing follows the wrapper, the first trim changes nothing and
    the wrapper can be stripped from the input as received. *)
Lemma normalizeResponseText_unwraps_untrimmed x :
  test_content x = true -> drop_while_end is_ws x = x ->
  normalizeResponseText (str x) = Normal (unwrap_untrimmed x).
Proof.
  intros H He. rewrite normalizeResponseText_str.
  assert (Ht : trim x = x).
  { unfold trim. destruct x as [|c x]; [discriminate|].
    unfold test_content in H. simpl in H. apply andb_true_iff in H.
    assert (Hc : is_ws c = false).
    { apply printable_not_ws, (canonicalize_printable 99%N);
        [unfold printable; lia | tauto]. }
    simpl drop_while. rewrite Hc. exact He. }
  rewrite Ht. unfold after_trim, unwrap_untrimmed. rewrite H. reflexivity.
Qed.

Lemma normalizeResponseText_unwraps_witness :
  test_content (js "content='Hello\nWorld'") = true /\
  normalizeResponseText (str (js "content='Hello\nWorld'"))
    = Normal (js "Hello" ++ [NEWLINE] ++ js "World").
Proof.
  split; [reflexivity|].
  rewrite (normalizeResponseText_unwraps (js "content='Hello\nWorld'"));
    reflexivity.
Defined.

(** ** The guidance label *)

Lemma drop_while_split p s :
  exists w, s = w ++ drop_while p s /\ forallb p w = true.
Proof.
  induction s as [|c s (w & Hs & Hw)]; [exists []; split; reflexivity|].
  simpl. destruct (p c) eqn:E.
  - exists (c :: w). simpl. rewrite E, Hw, <- Hs. split; reflexivity.
  - exists []. split; reflexivity.
Qed.

Lemma startsWith_ci_split pat s :
  startsWith_ci pat s = true ->
  List.map canonicalize (firstn (length pat) s) = List.map canonicalize pat.
Proof.
  revert s. induction pat as [|p pat IH]; intros s H; [reflexivity|].
  destruct s as [|c s]; [discriminate|]. simpl in H.
  apply andb_true_iff in H. destruct H as [Hc Hs]. apply cu_eqb_eq in Hc.
  simpl. rewrite (IH _ Hs), Hc. reflexivity.
Qed.

(** [replace(/^System guidance applied:\s*/i, '')] leaves the text alone
    when it does not start with the label; otherwise the text is the
    label in some mix of cases, a run of white space, and the result,
    which does not start with white space. *)
Lemma replace_guidance_label_spec s :
  let label := js "System guidance applied:" in
  (startsWith_ci label s = false /\ replace_guidance_label s = s) \/
  (exists l w,
      s = l ++ w ++ replace_guidance_label s /\
      List.map canonicalize l = List.map canonicalize label /\
      forallb is_ws w = true /\
      match replace_guidance_label s with
      | [] => True
      | c :: _ => is_ws c = false
      end).
Proof.
  intros label. unfold replace_guidance_label. fold label.
  destruct (startsWith_ci label s) eqn:E; [right | left; split; reflexivity].
  destruct (drop_while_split is_ws (skipn (len label) s)) as (w & Hs & Hw).
  exists (firstn (len label) s), w. repeat split.
  - rewrite <- Hs. symmetry. apply firstn_skipn.
  - apply startsWith_ci_split, E.
  - exact Hw.
  - apply drop_while_head.
Qed.

(** ** Splitting the answer *)

(** On a string, [handleSubmit] normalizes the whole answer first and
    then looks at its segments. *)
Lemma handleSubmit_answer_str raw :
  handleSubmit_answer (str raw) =
  (let segs := guidanceSegments raw in
   if (1 <? length segs)%nat
   then
     mainContent <- normalizeResponseText (index segs 0) ;;
     guidance <- normalizeResponseText
                   (str (replace_guidance_label
                           (join (js " --- ") (tl segs)))) ;;
     Normal {| content := mainContent; systemGuidance := str guidance |}
   else
     Normal {| content := after_trim (trim raw);
               systemGuidance := undefined |}).
Proof.
  unfold handleSubmit_answer. rewrite or_else_str.
  rewrite normalizeResponseText_str. reflexivity.
Qed.

(** Whatever the response holds, this part of [handleSubmit] does not
    throw. *)
Lemma handleSubmit_answer_normal answer :
  exists parts, handleSubmit_answer answer = Normal parts.
Proof.
  unfold handleSubmit_answer.
  assert (Hs : exists s, or_else answer (str []) = str s).
  { destruct answer as [| |[|c s]]; eexists; reflexivity. }
  destruct Hs as [raw ->]. rewrite normalizeResponseText_str.
  cbn [bind method].
  destruct (1 <? length (guidanceSegments raw))%nat; [|eexists; reflexivity].
  destruct (normalizeResponseText_normal (index (guidanceSegments raw) 0))
    as [m ->].
  rewrite normalizeResponseText_str. eexists; reflexivity.
Qed.

(** C3: when the answer, split on [---], trimmed piece by piece and
    without its empty pieces, has a first piece and at least one more,
    the main content is the first piece normalized and the guidance is
    the other pieces joined by [ --- ], without the leading label
    [System guidance applied:] and the white space after it, normalized. *)
Theorem handleSubmit_answer_with_guidance raw first rest :
  guidanceSegments raw = first :: rest -> rest <> [] ->
  exists main guidance,
    normalizeResponseText (str first) = Normal main /\
    normalizeResponseText
      (str (replace_guidance_label (join (js " --- ") rest)))
      = Normal guidance /\
    handleSubmit_answer (str raw)
      = Normal {| content := main; systemGuidance := str guidance |}.
Proof.
  intros Hs Hr. rewrite handleSubmit_answer_str, Hs. cbv zeta.
  destruct rest as [|second rest]; [contradiction|].
  change (index (first :: second :: rest) 0) with (str first).
  change (tl (first :: second :: rest)) with (second :: rest).
  rewrite !normalizeResponseText_str.
  eexists; eexists. repeat split.
Qed.

Lemma handleSubmit_answer_with_guidance_witness :
  exists main guidance,
    main = js "Main text" /\ guidance = js "Use IRAC format" /\
    handleSubmit_answer
      (str (js "Main text --- System guidance applied: Use IRAC format"))
      = Normal {| content := main; systemGuidance := str guidance |}.
Proof.
  destruct (handleSubmit_answer_with_guidance
              (js "Main text --- System guidance applied: Use IRAC format")
              (js "Main text")
              [js "System guidance applied: Use IRAC format"])
    as (main & guidance & Hm & Hg & Hh).
  - reflexivity.
  - discriminate.
  - exists main, guidance.
    split; [injection Hm as <-; reflexivity|].
    split; [injection Hg as <-; reflexivity|].
    exact Hh.
Defined.

(** C4: when fewer than two pieces remain, the main content is the whole
    answer normalized and there is no guidance. *)
Theorem handleSubmit_answer_without_guidance raw :
  length (guidanceSegments raw) < 2 ->
  exists main,
    normalizeResponseText (str raw) = Normal main /\
    handleSubmit_answer (str raw)
      = Normal {| content := main; systemGuidance := undefined |}.
Proof.
  intros Hl. rewrite handleSubmit_answer_str. cbv zeta.
  replace (1 <? length (guidanceSegments raw))%nat with false
    by (symmetry; apply Nat.ltb_ge; lia).
  exists (after_trim (trim raw)).
  split; [apply normalizeResponseText_str | reflexivity].
Qed.

Lemma handleSubmit_answer_without_guidance_witness :
  exists main,
    main = js "Main text" /\
    handleSubmit_answer (str (js "Main text"))
      = Normal {| content := main; systemGuidance := undefined |}.
Proof.
  destruct (handleSubmit_answer_without_guidance (js "Main text"))
    as (main & Hm & Hh).
  - simpl. lia.
  - exists main. split; [injection Hm as <-; reflexivity | exact Hh].
Defined.

End AskAIProps.

(* ================================================================== *)
(** * Properties of the API base resolver (utils/api.ts)               *)
(* ================================================================== *)

Module ApiProps.
Import JsString JsValue Props StringFacts Api.
Local Open Scope completion_scope.

Local Arguments cu_eqb : simpl never.

Lemma truthy_str v :
  truthy v = true -> exists c s, v = str (c :: s).
Proof. destruct v as [| |[|c s]]; try discriminate. eauto. Qed.

(** ** Path segments *)

Lemma split_go_slash cur s :
  split_go (js "/") 0 cur s =
  match s with
  | [] => [rev cur]
  | c :: s' =>
      if cu_eqb SLASH c
      then rev cur :: split_go (js "/") 0 [] s'
      else split_go (js "/") 0 (c :: cur) s'
  end.
Proof.
  destruct s as [|c s']; [reflexivity|].
  change (split_go (js "/") 0 cur (c :: s')) with
    (if cu_eqb SLASH c && true
     then rev cur :: split_go (js "/") 0 [] s'
     else split_go (js "/") 0 (c :: cur) s').
  rewrite andb_true_r. reflexivity.
Qed.

Lemma retained_drop_leading s :
  filter keep_part (split (js "/") (drop_while (cu_eqb SLASH) s)) =
  filter keep_part (split (js "/") s).
Proof.
  unfold split. induction s as [|c s IH]; [reflexivity|].
  simpl drop_while. rewrite (split_go_slash [] (c :: s)).
  destruct (cu_eqb SLASH c) eqn:E; [exact IH | ].
  rewrite (split_go_slash [] (c :: s)), E. reflexivity.
Qed.

Lemma retained_drop_trailing cur s :
  filter keep_part (split_go (js "/") 0 cur (drop_while_end (cu_eqb SLASH) s)) =
  filter keep_part (split_go (js "/") 0 cur s).
Proof.
  revert cur. induction s as [|c s IH]; intros cur; [reflexivity|].
  rewrite (split_go_slash cur (c :: s)). simpl drop_while_end.
  destruct (drop_while_end (cu_eqb SLASH) s) as [|h t] eqn:E.
  - destruct (cu_eqb SLASH c) eqn:Ec.
    + cbn [filter]. rewrite <- IH. reflexivity.
    + rewrite <- IH. rewrite (split_go_slash cur [c]), Ec. reflexivity.
  - rewrite (split_go_slash cur (c :: h :: t)).
    destruct (cu_eqb SLASH c); cbn [filter]; rewrite IH; reflexivity.
Qed.

(** Stripping the slashes at both ends only removes empty segments: the
    parts [detectBasePath] looks at are the retained segments of the
    page path. *)
Lemma pathParts_of_retained pathname :
  pathParts_of pathname = retained_segments pathname.
Proof.
  unfold pathParts_of, retained_segments, strip_slashes, split.
  rewrite retained_drop_trailing. apply retained_drop_leading.
Qed.

(** ** [detectBasePath] *)

Lemma findIndex_head p x rest : p x = true -> findIndex p (x :: rest) = 0%Z.
Proof. intros H. simpl. rewrite H. reflexivity. Qed.

(** A known route in front leaves nothing for lines 157-163 to return. *)
Lemma before_route_head first rest :
  is_route first = true -> before_route (first :: rest) = None.
Proof.
  intros H. unfold before_route. rewrite (findIndex_head _ _ _ H).
  destruct (1 <? length (first :: rest))%nat; reflexivity.
Qed.

(** The [<base>] lookup of lines 168-175 does not throw, and finds the
    declared base. *)
Lemma from_base_tag_declared env :
  exists r, from_base_tag env = Normal r /\
            match r with Some b => b | None => [] end = declared_base env.
Proof.
  unfold from_base_tag, declared_base.
  destruct (querySelector_base env) as [[[h|]]|]; try (eexists; split; reflexivity).
  unfold getAttribute_href; simpl href.
  destruct h as [|c t]; [eexists; split; reflexivity|].
  change (truthy (str (c :: t))) with true. cbv iota.
  change (or_else (str (c :: t)) (str [])) with (str (c :: t)).
  change (strict_eq (str (c :: t)) (str (js "/")))
    with (str_eqb (c :: t) (js "/")).
  rewrite andb_comm.
  destruct (str_eqb (c :: t) (js "/")); [eexists; split; reflexivity|].
  cbn [negb method bind andb].
  destruct (startsWith (js "/") (c :: t)); [|eexists; split; reflexivity].
  cbv iota.
  destruct (strip_last SLASH (c :: t)) as [|c' t'];
    eexists; split; reflexivity.
Qed.

Lemma detectBasePath_not_route env first rest :
  pathParts_of (pathname env) = first :: rest -> is_route first = false ->
  detectBasePath env = js "/" ++ first.
Proof.
  intros Hp Hr. unfold detectBasePath, detectBasePath_try. rewrite Hp.
  change (index (first :: rest) 0) with (str first).
  cbn [length Nat.eqb method bind].
  change (includes APP_ROUTES (toLowerCase first)) with (is_route first).
  rewrite Hr. reflexivity.
Qed.

Lemma detectBasePath_route env first rest :
  pathParts_of (pathname env) = first :: rest -> is_route first = true ->
  detectBasePath env = declared_base env.
Proof.
  intros Hp Hr. unfold detectBasePath, detectBasePath_try. rewrite Hp.
  change (index (first :: rest) 0) with (str first).
  cbn [length Nat.eqb method bind].
  change (includes APP_ROUTES (toLowerCase first)) with (is_route first).
  rewrite Hr, (before_route_head _ rest Hr). cbn [negb].
  destruct (from_base_tag_declared env) as (r & -> & <-).
  destruct r; reflexivity.
Qed.

(** The [try] block never reaches its [catch]. *)
Lemma detectBasePath_try_normal env :
  exists r, detectBasePath_try env = Normal r.
Proof.
  unfold detectBasePath_try.
  destruct (pathParts_of (pathname env)) as [|first rest]; [eexists; reflexivity|].
  change (index (first :: rest) 0) with (str first).
  cbn [length Nat.eqb method bind].
  destruct (negb (includes APP_ROUTES (toLowerCase first)));
    [eexists; reflexivity|].
  destruct (before_route (first :: rest)); [eexists; reflexivity|].
  destruct (from_base_tag_declared env) as (r & -> & _). eexists; reflexivity.
Qed.

(** ** [getApiBaseUrl] *)

(** Without an override and without a public URL other than the root,
    the base path is detected from the page. *)
Lemma getApiBaseUrl_detects env :
  no_override env -> no_public_url env ->
  getApiBaseUrl env = Normal (detectBasePath env ++ js "/api").
Proof.
  unfold no_override, no_public_url. intros Ho Hp.
  unfold getApiBaseUrl. rewrite Ho.
  destruct Hp as [Hp | Hp].
  - unfold or_else. rewrite Hp. reflexivity.
  - rewrite Hp. reflexivity.
Qed.


(** C2: with an override [u] in [REACT_APP_API_BASE_URL], whatever the
    page path, the public URL and the document are, the result is [u]
    trimmed and without one trailing slash, followed by [/api] unless it
    already ends with [/api]. *)
Theorem getApiBaseUrl_override env u :
  REACT_APP_API_BASE_URL env = str u -> u <> [] ->
  getApiBaseUrl env =
  Normal (let cleanUrl := strip_last SLASH (trim u) in
          if endsWith (js "/api") cleanUrl
          then cleanUrl
          else cleanUrl ++ js "/api").
Proof.
  intros Hu Hne. unfold getApiBaseUrl. rewrite Hu.
  destruct u as [|c s]; [contradiction|]. reflexivity.
Qed.

Lemma getApiBaseUrl_override_witness :
  getApiBaseUrl
    {| REACT_APP_API_BASE_URL := str (js " https://api.example.com/api/ ");
       PUBLIC_URL := str (js "/PatriotAI");
       pathname := js "/Other/login";
       querySelector_base := Some {| href := Some (js "/Base/") |} |}
  = Normal (js "https://api.example.com/api") /\
  getApiBaseUrl
    {| REACT_APP_API_BASE_URL := str (js "https://api.example.com");
       PUBLIC_URL := undefined;
       pathname := js "/";
       querySelector_base := None |}
  = Normal (js "https://api.example.com/api").
Proof.
  split.
  - rewrite (getApiBaseUrl_override _ (js " https://api.example.com/api/ "));
      [reflexivity | reflexivity | discriminate].
  - rewrite (getApiBaseUrl_override _ (js "https://api.example.com"));
      [reflexivity | reflexivity | discriminate].
Defined.

(** C5: without an override and without a public URL other than the
    root, a page path whose first retained segment is not a route name
    (compared in lower case) resolves to that segment between slashes,
    followed by [api]. *)
Theorem getApiBaseUrl_first_segment env first rest :
  no_override env -> no_public_url env ->
  pathParts_of (pathname env) = first :: rest ->
  is_route first = false ->
  getApiBaseUrl env = Normal (js "/" ++ first ++ js "/api").
Proof.
  intros Ho Hp Hs Hr. rewrite (getApiBaseUrl_detects env Ho Hp).
  rewrite (detectBasePath_not_route env first rest Hs Hr).
  rewrite <- app_assoc. reflexivity.
Qed.

Lemma getApiBaseUrl_first_segment_witness :
  getApiBaseUrl
    {| REACT_APP_API_BASE_URL := undefined;
       PUBLIC_URL := undefined;
       pathname := js "/PatriotAI/ask-ai";
       querySelector_base := None |}
  = Normal (js "/PatriotAI/api").
Proof.
  apply (getApiBaseUrl_first_segment _ (js "PatriotAI") [js "ask-ai"]).
  - reflexivity.
  - left; reflexivity.
  - reflexivity.
  - reflexivity.
Defined.

(** C7 (as stated): on the page [/login], without override and public
    URL, a document whose [<base>] has the [href] [/PatriotAI/] makes
    the resolver return [/PatriotAI/api], not [/api]. *)
Lemma getApiBaseUrl_login_with_base :
  getApiBaseUrl
    {| REACT_APP_API_BASE_URL := undefined;
       PUBLIC_URL := undefined;
       pathname := js "/login";
       querySelector_base := Some {| href := Some (js "/PatriotAI/") |} |}
  = Normal (js "/PatriotAI/api") /\
  getApiBaseUrl
    {| REACT_APP_API_BASE_URL := undefined;
       PUBLIC_URL := undefined;
       pathname := js "/login";
       querySelector_base := Some {| href := Some (js "/PatriotAI/") |} |}
  <> Normal (js "/api").
Proof. split; [reflexivity | discriminate]. Qed.

(** C7 (amended): on the page [/login], without override and public URL,
    the resolver returns the base the document declares, followed by
    [/api]; that is [/api] when the document declares none. *)
Theorem getApiBaseUrl_login env :
  no_override env -> no_public_url env ->
  pathname env = js "/login" ->
  getApiBaseUrl env = Normal (declared_base env ++ js "/api") /\
  (declared_base env = [] -> getApiBaseUrl env = Normal (js "/api")).
Proof.
  intros Ho Hp Hl.
  assert (E : getApiBaseUrl env = Normal (declared_base env ++ js "/api")).
  { rewrite (getApiBaseUrl_detects env Ho Hp).
    rewrite (detectBasePath_route env (js "login") []);
      [reflexivity | rewrite Hl; reflexivity | reflexivity]. }
  split; [exact E|]. intros Hd. rewrite E, Hd. reflexivity.
Qed.

Lemma getApiBaseUrl_login_witness :
  getApiBaseUrl
    {| REACT_APP_API_BASE_URL := undefined;
       PUBLIC_URL := str (js "/");
       pathname := js "/login";
       querySelector_base := None |}
  = Normal (js "/api").
Proof.
  apply getApiBaseUrl_login.
  - reflexivity.
  - right; reflexivity.
  - reflexivity.
  - reflexivity.
Defined.

(** C9: in every environment [getApiBaseUrl] completes normally with a
    string that ends with [/api]. *)
Theorem getApiBaseUrl_ends_with_api env :
  exists r, getApiBaseUrl env = Normal r /\ endsWith (js "/api") r = true.
Proof.
  destruct env as [override public path base]. unfold getApiBaseUrl.
  cbn [REACT_APP_API_BASE_URL PUBLIC_URL].
  destruct (truthy override) eqn:Ho.
  - destruct (truthy_str _ Ho) as (c & s & ->). cbn [method bind].
    destruct (endsWith (js "/api")
                (if endsWith (js "/") (trim (c :: s))
                 then slice_0_minus1 (trim (c :: s))
                 else trim (c :: s))) eqn:E.
    + eexists. split; [reflexivity | exact E].
    + eexists. split; [reflexivity | apply endsWith_app].
  - destruct public as [| |[|c s]];
      try (eexists; split; [reflexivity | apply endsWith_app]).
    change (or_else (str (c :: s)) (str [])) with (str (c :: s)).
    change (truthy (str (c :: s))) with true.
    destruct (strict_eq (str (c :: s)) (str (js "/"))).
    + eexists; split; [reflexivity | apply endsWith_app].
    + cbn [negb andb method bind].
      destruct (endsWith (js "/") (c :: s));
        eexists; (split; [reflexivity | apply endsWith_app]).
Qed.

(** C10: two page paths whose first retained segment is a route name
    (compared in lower case), in documents with the same [<base>], have
    the same detected base path: the first route name is found at index
    0, so lines 157-163 return nothing whatever follows. *)
Theorem detectBasePath_route_first env1 env2 first1 rest1 first2 rest2 :
  pathParts_of (pathname env1) = first1 :: rest1 -> is_route first1 = true ->
  pathParts_of (pathname env2) = first2 :: rest2 -> is_route first2 = true ->
  querySelector_base env1 = querySelector_base env2 ->
  detectBasePath env1 = detectBasePath env2 /\
  findIndex is_route (first1 :: rest1) = 0%Z /\
  findIndex is_route (first2 :: rest2) = 0%Z /\
  before_route (first1 :: rest1) = None /\
  before_route (first2 :: rest2) = None.
Proof.
  intros Hp1 Hr1 Hp2 Hr2 Hb.
  split; [|repeat split;
           first [apply findIndex_head | apply before_route_head];
           assumption].
  rewrite (detectBasePath_route env1 first1 rest1 Hp1 Hr1).
  rewrite (detectBasePath_route env2 first2 rest2 Hp2 Hr2).
  unfold declared_base. rewrite Hb. reflexivity.
Qed.

Lemma detectBasePath_route_first_witness :
  detectBasePath
    {| REACT_APP_API_BASE_URL := undefined;
       PUBLIC_URL := undefined;
       pathname := js "/login/PatriotAI/reports";
       querySelector_base := Some {| href := Some (js "/app/") |} |}
  = detectBasePath
    {| REACT_APP_API_BASE_URL := undefined;
       PUBLIC_URL := undefined;
       pathname := js "/Dashboard";
       querySelector_base := Some {| href := Some (js "/app/") |} |}.
Proof.
  apply (detectBasePath_route_first _ _
           (js "login") [js "PatriotAI"; js "reports"]
           (js "Dashboard") []);
    reflexivity.
Defined.

End ApiProps.

(* ================================================================== *)
(** * Further properties of the answer normalizer                      *)
(* ================================================================== *)

Module AskAIMore.
Import JsString JsValue Props Shape StringFacts EscapeFacts AskAI AskAIProps.
Local Open Scope completion_scope.

(** ** Trimmed strings *)

Lemma drop_while_end_last p s d :
  p d = false -> p (last (drop_while_end p s) d) = false.
Proof.
  intros Hd. induction s as [|c s IH]; [exact Hd|]. simpl drop_while_end.
  destruct (drop_while_end p s) as [|h t] eqn:E.
  - destruct (p c) eqn:Ec; [exact Hd | exact Ec].
  - exact IH.
Qed.

Lemma trim_trimmedb s : trimmedb (trim s) = true.
Proof.
  unfold trim. pose proof (drop_while_head is_ws s) as Hh.
  destruct (drop_while is_ws s) as [|c t]; [reflexivity|].
  pose proof (drop_while_end_last is_ws (c :: t) c Hh) as Hl.
  rewrite drop_while_end_keep in * by exact Hh.
  unfold trimmedb. rewrite Hh, Hl. reflexivity.
Qed.

Lemma drop_while_end_fixed p s d :
  s <> [] -> p (last s d) = false -> drop_while_end p s = s.
Proof.
  induction s as [|c s IH]; [contradiction|]. intros _ Hl.
  destruct s as [|h t].
  - simpl in *. rewrite Hl. reflexivity.
  - change (last (c :: h :: t) d) with (last (h :: t) d) in Hl.
    simpl drop_while_end. simpl drop_while_end in IH.
    rewrite IH; [reflexivity | discriminate | exact Hl].
Qed.

Lemma trimmedb_trim s : trimmedb s = true -> trim s = s.
Proof.
  destruct s as [|c t]; [reflexivity|]. unfold trimmedb, trim.
  intros H. apply andb_true_iff in H. destruct H as [Hc Hl].
  apply negb_true_iff in Hc. apply negb_true_iff in Hl.
  simpl drop_while. rewrite Hc.
  apply (drop_while_end_fixed is_ws (c :: t) c); [discriminate | exact Hl].
Qed.

(** ** White space around the input *)

Lemma drop_while_all p w : forallb p w = true -> drop_while p w = [].
Proof.
  induction w as [|c w IH]; [reflexivity|]. simpl. intros H.
  apply andb_true_iff in H. destruct H as [-> H]. apply IH, H.
Qed.

Lemma drop_while_app_all p w s :
  forallb p w = true -> drop_while p (w ++ s) = drop_while p s.
Proof.
  induction w as [|c w IH]; [reflexivity|]. simpl. intros H.
  apply andb_true_iff in H. destruct H as [-> H]. apply IH, H.
Qed.

Lemma drop_while_end_all p w :
  forallb p w = true -> drop_while_end p w = [].
Proof.
  induction w as [|c w IH]; [reflexivity|]. simpl. intros H.
  apply andb_true_iff in H. destruct H as [-> H]. rewrite (IH H).
  reflexivity.
Qed.

Lemma drop_while_end_app_all p s w :
  forallb p w = true -> drop_while_end p (s ++ w) = drop_while_end p s.
Proof.
  intros H. induction s as [|c s IH]; simpl.
  - apply drop_while_end_all, H.
  - rewrite IH. reflexivity.
Qed.

Lemma drop_while_app p s w :
  drop_while p (s ++ w) =
  match drop_while p s with
  | [] => drop_while p w
  | t => t ++ w
  end.
Proof.
  induction s as [|c s IH]; simpl; [destruct (drop_while p w); reflexivity|].
  destruct (p c); [exact IH | reflexivity].
Qed.

Lemma trim_pad w1 s w2 :
  forallb is_ws w1 = true -> forallb is_ws w2 = true ->
  trim (w1 ++ s ++ w2) = trim s.
Proof.
  intros H1 H2. unfold trim. rewrite (drop_while_app_all _ _ _ H1).
  rewrite drop_while_app.
  destruct (drop_while is_ws s) as [|c t] eqn:E.
  - rewrite (drop_while_all _ _ H2). reflexivity.
  - apply drop_while_end_app_all, H2.
Qed.

(** ** Lengths *)

Lemma length_after_trim z : length (after_trim z) <= length z.
Proof.
  unfold after_trim.
  set (w := if test_content z
            then strip_last QUOTE (replace_content z)
            else z).
  assert (Hz : length w <= length z).
  { subst w. destruct (test_content z) eqn:E; [|lia].
    pose proof (length_replace_content z E).
    pose proof (length_strip_last QUOTE (replace_content z)). lia. }
  pose proof (length_unescape w). pose proof (length_trim (unescape w)).
  lia.
Qed.

(** ** The result of [normalizeResponseText] *)

Lemma after_trim_normal_form z : normal_form (after_trim z).
Proof.
  unfold normal_form. split.
  - unfold after_trim. apply trim_trimmedb.
  - apply after_trim_normal.
Qed.

Lemma normalizeResponseText_value text :
  exists z, normalizeResponseText text = Normal (after_trim z).
Proof.
  destruct text as [| |s].
  - exists []. reflexivity.
  - exists []. reflexivity.
  - exists (trim s). apply normalizeResponseText_str.
Qed.

(** X1: whatever the input is, the result of [normalizeResponseText]
    has no white space at either end and holds neither the escape
    backslash-n nor the escape backslash-t. *)
Theorem normalizeResponseText_normal_form text r :
  normalizeResponseText text = Normal r -> normal_form r.
Proof.
  destruct (normalizeResponseText_value text) as [z ->].
  intros [= <-]. apply after_trim_normal_form.
Qed.

Lemma normalizeResponseText_normal_form_witness :
  normal_form (js "a" ++ [TAB] ++ js "b").
Proof.
  apply (normalizeResponseText_normal_form (str (js " content='a\tb\n' "))).
  reflexivity.
Defined.

(** X2: the result is never longer than the input. *)
Theorem normalizeResponseText_length x r :
  normalizeResponseText (str x) = Normal r -> length r <= length x.
Proof.
  rewrite normalizeResponseText_str. intros [= <-].
  pose proof (length_after_trim (trim x)). pose proof (length_trim x). lia.
Qed.

Lemma normalizeResponseText_length_witness :
  length (js "a" ++ [NEWLINE] ++ js "b") <= length (js " content='a\nb' ").
Proof.
  apply normalizeResponseText_length. reflexivity.
Defined.

(** X3: white space before and after the input does not change the
    result. *)
Theorem normalizeResponseText_pad w1 x w2 :
  forallb is_ws w1 = true -> forallb is_ws w2 = true ->
  normalizeResponseText (str (w1 ++ x ++ w2)) = normalizeResponseText (str x).
Proof.
  intros H1 H2. rewrite !normalizeResponseText_str, (trim_pad _ _ _ H1 H2).
  reflexivity.
Qed.

Lemma normalizeResponseText_pad_witness :
  normalizeResponseText (str ([NEWLINE; TAB] ++ js "content='x'" ++ js "  "))
  = normalizeResponseText (str (js "content='x'")).
Proof. apply normalizeResponseText_pad; reflexivity. Defined.

(** X4: a text that, once trimmed, does not start with the marker, and
    that holds no escape, is only trimmed. *)
Theorem normalizeResponseText_plain x :
  test_content (trim x) = false ->
  has_escape LETTER_n x = false -> has_escape LETTER_t x = false ->
  normalizeResponseText (str x) = Normal (trim x).
Proof.
  intros Hm Hn Ht. rewrite normalizeResponseText_str. unfold after_trim.
  rewrite Hm, unescape_fixed by (apply has_escape_trim; assumption).
  rewrite trim_idem. reflexivity.
Qed.

Lemma normalizeResponseText_plain_witness :
  normalizeResponseText (str (js "  Section 3 \ applies  "))
  = Normal (js "Section 3 \ applies").
Proof. apply normalizeResponseText_plain; reflexivity. Defined.

(** ** The answer as a whole *)

(** Without an occurrence of the separator, [split] returns the string
    as its only piece. *)
Lemma split_go_absent sep cur s :
  contains sep s = false -> split_go sep 0 cur s = [rev cur ++ s].
Proof.
  revert cur. induction s as [|c s IH]; intros cur H.
  - simpl. rewrite app_nil_r. reflexivity.
  - change (contains sep (c :: s))
      with (startsWith sep (c :: s) || contains sep s) in H.
    apply orb_false_iff in H. destruct H as [Hs Hc].
    change (split_go sep 0 cur (c :: s)) with
      (if startsWith sep (c :: s)
       then rev cur :: split_go sep (len sep - 1) [] s
       else split_go sep 0 (c :: cur) s).
    rewrite Hs, (IH _ Hc). simpl. rewrite <- app_assoc. reflexivity.
Qed.

Lemma guidanceSegments_absent raw :
  contains (js "---") raw = false ->
  guidanceSegments raw = filter nonempty [trim raw].
Proof.
  intros H. unfold guidanceSegments, split.
  rewrite (split_go_absent _ [] _ H). reflexivity.
Qed.

(** X5: an answer that does not contain [---] has no guidance, and its
    content is the whole answer normalized. *)
Theorem handleSubmit_answer_no_delimiter raw :
  contains (js "---") raw = false ->
  exists main,
    normalizeResponseText (str raw) = Normal main /\
    handleSubmit_answer (str raw)
      = Normal {| content := main; systemGuidance := undefined |}.
Proof.
  intros H. rewrite handleSubmit_answer_str, (guidanceSegments_absent _ H).
  cbv zeta.
  replace (1 <? length (filter nonempty [trim raw]))%nat with false
    by (simpl; destruct (nonempty (trim raw)); reflexivity).
  exists (after_trim (trim raw)).
  split; [apply normalizeResponseText_str | reflexivity].
Qed.

Lemma handleSubmit_answer_no_delimiter_witness :
  exists main,
    main = js "Held -- see s. 3" /\
    handleSubmit_answer (str (js " content='Held -- see s. 3' "))
      = Normal {| content := main; systemGuidance := undefined |}.
Proof.
  destruct (handleSubmit_answer_no_delimiter
              (js " content='Held -- see s. 3' "))
    as (main & Hm & Hh).
  - reflexivity.
  - exists main. split; [injection Hm as <-; reflexivity | exact Hh].
Defined.

(** X6: whatever [response.data.answer] is (a string, [null] or
    [undefined]) this part of [handleSubmit] completes normally, and
    the content and the guidance it produces, if any, have no white
    space at either end and no escape left. *)
Theorem handleSubmit_answer_normal_form answer :
  exists parts,
    handleSubmit_answer answer = Normal parts /\
    normal_form (content parts) /\
    (systemGuidance parts = undefined \/
     exists guidance,
       systemGuidance parts = str guidance /\ normal_form guidance).
Proof.
  unfold handleSubmit_answer.
  assert (Hs : exists s, or_else answer (str []) = str s).
  { destruct answer as [| |[|c s]]; eexists; reflexivity. }
  destruct Hs as [raw ->]. rewrite normalizeResponseText_str.
  cbn [bind method].
  destruct (1 <? length (guidanceSegments raw))%nat.
  - destruct (normalizeResponseText_value (index (guidanceSegments raw) 0))
      as [z ->].
    rewrite normalizeResponseText_str. cbn [bind].
    eexists. split; [reflexivity|]. cbn [content systemGuidance].
    split; [apply after_trim_normal_form|].
    right. eexists. split; [reflexivity | apply after_trim_normal_form].
  - eexists. split; [reflexivity|]. cbn [content systemGuidance].
    split; [apply after_trim_normal_form | left; reflexivity].
Qed.

End AskAIMore.

(* ================================================================== *)
(** * Further properties of the API base resolver                      *)
(* ================================================================== *)

Module ApiMore.
Import JsString JsValue Props Shape StringFacts Api ApiProps.
Local Open Scope completion_scope.

Local Arguments cu_eqb : simpl never.

(** ** Path parts *)

Lemma split_go_slash_free cur s :
  ~ In SLASH cur ->
  Forall (fun piece => ~ In SLASH piece) (split_go (js "/") 0 cur s).
Proof.
  revert cur. induction s as [|c s IH]; intros cur Hc;
    rewrite split_go_slash.
  - constructor; [|constructor]. rewrite <- in_rev. exact Hc.
  - destruct (cu_eqb SLASH c) eqn:E.
    + constructor; [rewrite <- in_rev; exact Hc | apply IH; intros []].
    + apply IH. intros [H|H]; [|contradiction].
      subst c. rewrite StringFacts.cu_eqb_refl in E. discriminate.
Qed.

(** X7: every part [detectBasePath] looks at is a non-empty segment of
    the page path other than [index.html], and holds no slash. *)
Theorem pathParts_of_segments pathname :
  Forall segment (pathParts_of pathname).
Proof.
  unfold pathParts_of. apply Forall_forall. intros part Hin.
  apply filter_In in Hin. destruct Hin as [Hin Hk].
  unfold keep_part in Hk. apply andb_true_iff in Hk. destruct Hk as [Hn Hi].
  unfold segment. split; [|split].
  - destruct part; [discriminate | discriminate].
  - apply negb_true_iff in Hi. apply str_eqb_neq. exact Hi.
  - pose proof (split_go_slash_free [] (strip_slashes pathname)
                  (fun H => H)) as Hf.
    rewrite Forall_forall in Hf. apply Hf. exact Hin.
Qed.

(** ** The root *)

Lemma detectBasePath_root env :
  pathParts_of (pathname env) = [] -> detectBasePath env = [].
Proof.
  intros H. unfold detectBasePath, detectBasePath_try. rewrite H.
  reflexivity.
Qed.

(** X8: on a page path without any retained segment (the empty path,
    slashes only, [index.html]) and without override or public URL, the
    result is [/api], whatever the [<base>] element of the document says. *)
Theorem getApiBaseUrl_root env :
  no_override env -> no_public_url env ->
  retained_segments (pathname env) = [] ->
  getApiBaseUrl env = Normal (js "/api").
Proof.
  intros Ho Hp Hr. rewrite (getApiBaseUrl_detects env Ho Hp).
  rewrite detectBasePath_root; [reflexivity|].
  rewrite pathParts_of_retained. exact Hr.
Qed.

Lemma getApiBaseUrl_root_witness :
  getApiBaseUrl
    {| REACT_APP_API_BASE_URL := undefined;
       PUBLIC_URL := str (js "/");
       pathname := js "//index.html/";
       querySelector_base := Some {| href := Some (js "/PatriotAI/") |} |}
  = Normal (js "/api").
Proof.
  apply getApiBaseUrl_root.
  - reflexivity.
  - right; reflexivity.
  - reflexivity.
Defined.

(** ** The public URL *)

(** X9: without an override, a public URL [u] other than the empty
    string and [/] decides the result: [u] without one trailing slash,
    followed by [/api], whatever the page path and the document are. *)
Theorem getApiBaseUrl_public_url env u :
  no_override env ->
  PUBLIC_URL env = str u -> u <> [] -> u <> js "/" ->
  getApiBaseUrl env = Normal (strip_last SLASH u ++ js "/api").
Proof.
  unfold no_override. intros Ho Hu Hne Hroot.
  unfold getApiBaseUrl. rewrite Ho, Hu.
  destruct u as [|c s]; [contradiction|].
  change (or_else (str (c :: s)) (str [])) with (str (c :: s)).
  change (truthy (str (c :: s))) with true.
  change (strict_eq (str (c :: s)) (str (js "/")))
    with (str_eqb (c :: s) (js "/")).
  replace (str_eqb (c :: s) (js "/")) with false
    by (symmetry; apply str_eqb_neq; exact Hroot).
  cbn [negb andb method bind]. unfold strip_last.
  change (endsWith [SLASH] (c :: s)) with (endsWith (js "/") (c :: s)).
  destruct (endsWith (js "/") (c :: s)); reflexivity.
Qed.

Lemma getApiBaseUrl_public_url_witness :
  getApiBaseUrl
    {| REACT_APP_API_BASE_URL := str [];
       PUBLIC_URL := str (js "/PatriotAI/");
       pathname := js "/Other/login";
       querySelector_base := Some {| href := Some (js "/Base/") |} |}
  = Normal (js "/PatriotAI/api").
Proof.
  apply (getApiBaseUrl_public_url _ (js "/PatriotAI/"));
    [reflexivity | reflexivity | discriminate | discriminate].
Defined.

(** ** The shape of the detected base *)

Lemma removelast_cons2 (c h : code_unit) t :
  removelast (c :: h :: t) = c :: removelast (h :: t).
Proof. reflexivity. Qed.

Lemma declared_base_absolute env :
  declared_base env = [] \/ startsWith (js "/") (declared_base env) = true.
Proof.
  unfold declared_base.
  destruct (querySelector_base env) as [[[h|]]|]; try (left; reflexivity).
  destruct (startsWith (js "/") h) eqn:Es; [|left; reflexivity].
  destruct (str_eqb h (js "/")) eqn:Er; [left; reflexivity|].
  right. cbn [negb andb]. unfold strip_last.
  destruct (endsWith [SLASH] h); [|exact Es].
  apply startsWith_app in Es. destruct Es as [rest ->].
  destruct rest as [|h t];
    [rewrite str_eqb_refl in Er; discriminate|].
  change (js "/" ++ h :: t) with (SLASH :: h :: t).
  rewrite removelast_cons2. reflexivity.
Qed.

(** X10: the base path [detectBasePath] returns is empty or starts with
    a slash. *)
Theorem detectBasePath_absolute env :
  detectBasePath env = [] \/
  startsWith (js "/") (detectBasePath env) = true.
Proof.
  destruct (pathParts_of (pathname env)) as [|first rest] eqn:Ep.
  - left. apply detectBasePath_root, Ep.
  - destruct (is_route first) eqn:Er.
    + rewrite (detectBasePath_route env first rest Ep Er).
      apply declared_base_absolute.
    + rewrite (detectBasePath_not_route env first rest Ep Er).
      right. reflexivity.
Qed.

(** ** The override, again *)

Lemma endsWith_api_last r d :
  endsWith (js "/api") r = true -> r <> [] /\ last r d = 105%N.
Proof.
  intros H. apply endsWith_iff in H. destruct H as [front ->]. split.
  - destruct front; discriminate.
  - change (js "/api") with ([47; 97; 112]%N ++ [105%N]).
    rewrite app_assoc. apply last_last.
Qed.

Lemma endsWith_api_no_slash r :
  endsWith (js "/api") r = true -> endsWith (js "/") r = false.
Proof.
  intros H. destruct (endsWith_api_last r 0%N H) as [_ Hl].
  destruct (endsWith (js "/") r) eqn:E; [|reflexivity].
  apply endsWith_iff in E. destruct E as [front ->].
  change (js "/") with [47%N] in Hl. rewrite last_last in Hl. discriminate.
Qed.

Lemma head_ok_trim s : head_ok (trim s).
Proof.
  unfold trim. pose proof (drop_while_head is_ws s) as Hh.
  destruct (drop_while is_ws s) as [|c t]; [exact I|].
  rewrite drop_while_end_keep by exact Hh. exact Hh.
Qed.

Lemma head_ok_removelast s : head_ok s -> head_ok (removelast s).
Proof. destruct s as [|c [|h t]]; simpl; tauto. Qed.

Lemma head_ok_app_api s : head_ok s -> head_ok (s ++ js "/api").
Proof. destruct s; [reflexivity | simpl; tauto]. Qed.

Lemma trimmedb_api r :
  head_ok r -> endsWith (js "/api") r = true -> trimmedb r = true.
Proof.
  intros Hh He. destruct r as [|c t]; [reflexivity|].
  destruct (endsWith_api_last (c :: t) c He) as [_ Hl].
  unfold trimmedb. rewrite Hl. simpl in Hh. rewrite Hh. reflexivity.
Qed.

(** What tier 1 returns for the override [u]. *)
Lemma getApiBaseUrl_override_shape env u r :
  REACT_APP_API_BASE_URL env = str u -> u <> [] ->
  getApiBaseUrl env = Normal r ->
  head_ok r /\ endsWith (js "/api") r = true.
Proof.
  intros Hu Hne. unfold getApiBaseUrl. rewrite Hu.
  destruct u as [|c s]; [contradiction|].
  change (truthy (str (c :: s))) with true. cbn [method bind].
  set (apiUrl := trim (c :: s)).
  assert (Ha : head_ok apiUrl) by apply head_ok_trim.
  set (cleanUrl := if endsWith (js "/") apiUrl
                   then slice_0_minus1 apiUrl else apiUrl).
  assert (Hc : head_ok cleanUrl).
  { subst cleanUrl. destruct (endsWith (js "/") apiUrl);
      [apply head_ok_removelast|]; exact Ha. }
  destruct (endsWith (js "/api") cleanUrl) eqn:E; intros [= <-].
  - split; assumption.
  - split; [apply head_ok_app_api, Hc | apply endsWith_app].
Qed.

(** X11: an API base obtained from an override is stable: used as the
    override in turn, it is returned as it is. *)
Theorem getApiBaseUrl_override_stable env env' u r :
  REACT_APP_API_BASE_URL env = str u -> u <> [] ->
  getApiBaseUrl env = Normal r ->
  REACT_APP_API_BASE_URL env' = str r ->
  getApiBaseUrl env' = Normal r.
Proof.
  intros Hu Hne Hr Hr'.
  destruct (getApiBaseUrl_override_shape env u r Hu Hne Hr) as [Hh He].
  pose proof (AskAIMore.trimmedb_trim r (trimmedb_api r Hh He)) as Ht.
  destruct (endsWith_api_last r 0%N He) as [Hn _].
  unfold getApiBaseUrl. rewrite Hr'.
  destruct r as [|c t]; [contradiction|].
  change (truthy (str (c :: t))) with true. cbn [method bind].
  rewrite Ht, (endsWith_api_no_slash _ He), He. reflexivity.
Qed.

Lemma getApiBaseUrl_override_stable_witness :
  getApiBaseUrl
    {| REACT_APP_API_BASE_URL := str (js "https://api.example.com/v1/api");
       PUBLIC_URL := str (js "/PatriotAI");
       pathname := js "/login";
       querySelector_base := None |}
  = Normal (js "https://api.example.com/v1/api").
Proof.
  apply (getApiBaseUrl_override_stable
           {| REACT_APP_API_BASE_URL := str (js " https://api.example.com/v1/ ");
              PUBLIC_URL := undefined;
              pathname := js "/";
              querySelector_base := None |}
           _ (js " https://api.example.com/v1/ "));
    [reflexivity | discriminate | reflexivity | reflexivity].
Defined.

End ApiMore.

(* ================================================================== *)
(** * Properties of the preset loader (pages/AskAI.tsx)                *)
(* ================================================================== *)

Module PromptsProps.
Import JsString JsValue Prompts.
Local Open Scope completion_scope.

Section Payload.

Variable number : Type.
Variable number_truthy : number -> bool.

Lemma map_project_cons (p : any number) rest offered :
  map_project (p :: rest) = Normal offered ->
  exists i q qs,
    get p (js "id") = Normal i /\ offered = q :: qs /\ id q = i.
Proof.
  cbn [map_project]. unfold project.
  destruct (get p (js "id")) as [i|]; [|discriminate]. cbn [bind].
  destruct (get p (js "title")) as [t|]; [|discriminate]. cbn [bind].
  destruct (get p (js "description")) as [d|]; [|discriminate]. cbn [bind].
  destruct (map_project rest) as [qs|]; [|discriminate]. cbn [bind].
  intros [= <-]. eexists; eexists; eexists.
  split; [reflexivity | split; reflexivity].
Qed.

(** X12: however the request settles and whatever the payload is,
    when at least one preset is offered afterwards, the selected preset
    is the first one offered. *)
Theorem loadPrompts_selects_first (st : PromptState number) r p rest :
  serverPrompts (loadPrompts number_truthy st r) = p :: rest ->
  presetId (loadPrompts number_truthy st r) = id p.
Proof.
  destruct r as [|data]; cbn [loadPrompts].
  - intros [= <- _]. reflexivity.
  - destruct (loadPrompts_try number_truthy st data) as [st'|e] eqn:E;
      [|intros [= <- _]; reflexivity].
    unfold loadPrompts_try in E.
    destruct (call_filter _) as [list|]; [|discriminate]. cbn [bind] in E.
    destruct (map_project list) as [offered|] eqn:Em; [|discriminate].
    cbn [bind] in E. destruct list as [|q list].
    + cbn [map_project] in Em. injection Em as <-.
      cbn in E. injection E as <-. discriminate.
    + destruct (map_project_cons _ _ _ Em) as (i & q' & qs & Hi & -> & Hq).
      cbn [length Nat.ltb Nat.leb first_of] in E. rewrite Hi in E.
      cbn [bind serverPrompts] in E. injection E as <-.
      cbn [serverPrompts presetId]. intros [= <- _]. symmetry. exact Hq.
Qed.

Lemma filter_active_all_inactive (items : list (any number)) :
  all_inactive items -> filter_active items = Normal [].
Proof.
  induction 1 as [|p items (fields & -> & Hf) _ IH]; [reflexivity|].
  cbn [filter_active get bind]. rewrite Hf, IH. reflexivity.
Qed.

(** X13: a resolved request whose payload has no [prompts] (or a falsy
    one), or only entries marked [is_active: false], offers no preset
    and leaves the selected preset as it was; the built-in presets are
    not used. *)
Theorem loadPrompts_nothing_offered (st : PromptState number) data :
  any_truthy number_truthy (get_opt data (js "prompts")) = false \/
  (exists items,
      get_opt data (js "prompts") = AArr items /\ all_inactive items) ->
  loadPrompts number_truthy st (Resolved data)
  = {| serverPrompts := []; presetId := presetId st |}.
Proof.
  intros H. cbn [loadPrompts]. unfold loadPrompts_try.
  destruct H as [H | (items & -> & H)].
  - rewrite H. reflexivity.
  - cbn [any_truthy call_filter]. rewrite (filter_active_all_inactive items H).
    reflexivity.
Qed.

Lemma filter_active_null (items : list (any number)) :
  In ANull items -> filter_active items = Throw TypeError.
Proof.
  induction items as [|p items IH]; [contradiction|].
  intros [-> | H]; [reflexivity|]. cbn [filter_active].
  destruct (get p (js "is_active")) as [a|[]]; [|reflexivity].
  cbn [bind]. rewrite (IH H). reflexivity.
Qed.

(** X14: a resolved request whose [prompts] is truthy without being
    an array, or is an array with a [null] entry, ends like a rejected
    one: the six built-in presets are offered and [case-summary] is
    selected. *)
Theorem loadPrompts_malformed (st : PromptState number) data :
  malformed number_truthy data ->
  loadPrompts number_truthy st (Resolved data)
  = loadPrompts number_truthy st Rejected.
Proof.
  unfold malformed. intros H. cbn [loadPrompts]. unfold loadPrompts_try.
  destruct (get_opt data (js "prompts")) as [| |b|n|s|items|fields];
    try (rewrite H; reflexivity); try discriminate.
  cbn [any_truthy call_filter]. rewrite (filter_active_null _ H).
  reflexivity.
Qed.

End Payload.

Lemma loadPrompts_selects_first_witness :
  presetId
    (loadPrompts Z_truthy
       {| serverPrompts := []; presetId := AStr (js "") |}
       (Resolved
          (AObj [(js "prompts",
                  AArr [AObj [(js "id", AStr (js "old"));
                              (js "is_active", ABool false)];
                        AObj [(js "id", AStr (js "brief"));
                              (js "title", AStr (js "Brief"))];
                        AObj [(js "id", ANum 7%Z)]])])))
  = AStr (js "brief").
Proof.
  apply (loadPrompts_selects_first Z Z_truthy _ _
           {| id := AStr (js "brief");
              title := AStr (js "Brief");
              description := AUndefined |}
           [{| id := ANum 7%Z;
               title := AUndefined;
               description := AUndefined |}]).
  reflexivity.
Defined.

Lemma loadPrompts_nothing_offered_witness :
  loadPrompts Z_truthy
    {| serverPrompts := []; presetId := AStr (js "") |}
    (Resolved
       (AObj [(js "prompts",
               AArr [AObj [(js "id", AStr (js "old"));
                           (js "is_active", ABool false)]])]))
  = {| serverPrompts := []; presetId := AStr (js "") |}.
Proof.
  apply (loadPrompts_nothing_offered Z Z_truthy). right.
  eexists. split; [reflexivity|].
  constructor; [|constructor]. eexists. split; reflexivity.
Defined.

Lemma loadPrompts_malformed_witness :
  loadPrompts Z_truthy
    {| serverPrompts := []; presetId := AStr (js "") |}
    (Resolved
       (AObj [(js "prompts",
               AArr [AObj [(js "id", AStr (js "brief"))]; ANull])]))
  = {| serverPrompts := fallback; presetId := AStr (js "case-summary") |}.
Proof.
  rewrite (loadPrompts_malformed Z Z_truthy); [reflexivity|].
  right; left; reflexivity.
Defined.

End PromptsProps.

(* ================================================================== *)
(** * Properties of the document list (pages/Uploads.tsx)              *)
(* ================================================================== *)

Module UploadsProps.
Import JsString JsValue StringFacts Uploads.

(** X15: once the upload request has settled, either way, no document
    with the id of the upload is left in the status [uploading]. *)
Theorem uploadFile_settle_not_uploading document_id r prev doc :
  In doc (uploadFile_settle document_id r prev) ->
  id doc = document_id ->
  status doc <> uploading.
Proof.
  unfold uploadFile_settle. intros Hin Hid.
  apply in_map_iff in Hin. destruct Hin as (old & Hd & _).
  destruct (str_eqb (id old) document_id) eqn:E.
  - subst doc. destruct r as [|[|] now]; discriminate.
  - subst doc. apply str_eqb_neq in E. contradiction.
Qed.

Lemma uploadFile_settle_not_uploading_witness :
  status
    (with_status
       (new_document (js "17000000000000.42") 1700000000000%Z
          {| file_name := js "ruling.pdf";
             file_size := 2048%N;
             file_type := js "application/pdf" |}
          {| meta_caseName := js "R v K";
             meta_court := js "High Court";
             meta_year := js "2024";
             meta_legalArea := js "Criminal";
             meta_citation := js "" |})
       error None)
  <> uploading.
Proof.
  apply (uploadFile_settle_not_uploading (js "17000000000000.42") Rejected
           (uploadFile_begin
              (new_document (js "17000000000000.42") 1700000000000%Z
                 {| file_name := js "ruling.pdf";
                    file_size := 2048%N;
                    file_type := js "application/pdf" |}
                 {| meta_caseName := js "R v K";
                    meta_court := js "High Court";
                    meta_year := js "2024";
                    meta_legalArea := js "Criminal";
                    meta_citation := js "" |})
              [])).
  - left. reflexivity.
  - reflexivity.
Defined.

(** X16: settling an upload keeps the documents in place, each with
    its id, and changes none with another id. *)
Theorem uploadFile_settle_frame document_id r prev :
  Forall2 (fun before after =>
             id after = id before /\
             (id before <> document_id -> after = before))
          prev (uploadFile_settle document_id r prev).
Proof.
  unfold uploadFile_settle. induction prev as [|doc prev IH]; simpl.
  - constructor.
  - constructor; [|exact IH].
    destruct (str_eqb (id doc) document_id) eqn:E.
    + apply str_eqb_eq in E.
      split; [destruct r; reflexivity | intros H; contradiction].
    + split; reflexivity.
Qed.

(** X17: a document removed while its upload is pending does not come
    back when the upload settles, and removing it after the upload has
    settled gives the same list. *)
Theorem deleteDocument_settle document_id r prev :
  uploadFile_settle document_id r (deleteDocument document_id prev)
  = deleteDocument document_id prev /\
  deleteDocument document_id (uploadFile_settle document_id r prev)
  = deleteDocument document_id prev.
Proof.
  unfold uploadFile_settle, deleteDocument. split.
  - induction prev as [|doc prev IH]; [reflexivity|]. simpl.
    destruct (str_eqb (id doc) document_id) eqn:E; simpl; [exact IH|].
    rewrite E, IH. reflexivity.
  - induction prev as [|doc prev IH]; [reflexivity|]. simpl.
    destruct (str_eqb (id doc) document_id) eqn:E.
    + replace (str_eqb (id _) document_id) with true
        by (destruct r; symmetry; exact E).
      simpl. exact IH.
    + rewrite E. simpl. rewrite IH. reflexivity.
Qed.

End UploadsProps.
